(** * WhatsApp chat analyzer: the parser and the analytics tables

    A shallow embedding of [parse_chat] and of [analyze_chat] from
    [old/comprehensive-whatsapp-analysis.py], and the properties of the
    specification checked against it.

    Modelling conventions.
    - A Python [str] is a list of Unicode code points ([N]).  The character
      classes and mappings the code uses ([\d], [\w], [int], [str.isalpha],
      [str.split], [str.lower], matching with [re.IGNORECASE]) are written
      out on ASCII; what they do with a code point outside ASCII is read
      from the tables of the interpreter, which are a parameter
      ([Platform]).
    - Python integers are [Z]; row counts are [nat].
    - A raised exception is the [Raise] branch of [result]; the one [try]
      of the source, in [plot_emoji_usage], is modelled where it stands.
    - A [datetime] keeps the six fields [strptime] fills in.  A calendar
      date ([.dt.date]) is identified with its proleptic Gregorian ordinal
      ([date.toordinal]), so that [(a - b).days] is [a - b]; the calendar
      ends on 31/12/9999, and what pandas does with a range of dates that
      runs past that day is a parameter as well.  The nanosecond range of
      pandas timestamps is not modelled.
    - A pandas Series indexed by sender is a finite map from sender to
      value (its row order is not modelled); a Series produced with its
      index sorted ([groupby(...).size()], [value_counts().sort_index()])
      is the list of its (key, value) rows in index order.
    - Means are exact rationals in place of IEEE doubles.
    - A stage is represented by the table it computes.  What matplotlib,
      seaborn and wordcloud do with the table, and the printing, is one
      parameter of the pipeline, [render], which returns or raises.
    - The order search of [pmdarima], the fit and forecast of
      [statsmodels], the [emoji] table and the stopword list are
      parameters of the pipeline. *)

From Stdlib Require Import ZArith QArith Ascii String Sorted Lia.
From stdpp Require Import gmap strings list sorting.

(** A character is its code point. *)
Abbreviation char := N.

Abbreviation text := (list char).

(** An ASCII character literal. *)
Definition ch (c : ascii) : char := N_of_ascii c.
Arguments ch c%_char.

(** A Python string literal of ASCII characters. *)
Definition txt (s : string) : text := map N_of_ascii (list_ascii_of_string s).

(** ** Exceptions *)

Inductive exn :=
| ValueError | KeyError | IndexError | OverflowError
| OtherError (name : string).

Inductive result (A : Type) :=
| Ok (a : A)
| Raise (e : exn).
Arguments Ok {A} a.
Arguments Raise {A} e.

Definition bind {A B} (r : result A) (k : A -> result B) : result B :=
  match r with
  | Ok a => k a
  | Raise e => Raise e
  end.

Notation "'try' x <- r ; k" := (bind r (fun x => k))
  (at level 10, x pattern, r at level 100, k at level 200).

(** ** The interpreter and its libraries *)

Record datetime := mk_datetime
  { year : Z; month : Z; day : Z; hour : Z; minute : Z; second : Z }.

(** What the interpreter and its libraries do with the code points from
    128 on, and with dates after the last day of the calendar.  None of it
    is in the repository. *)
Class Platform := {
  (* the value of a decimal digit (category Nd), which [\d], [int] and
     [strptime] accept *)
  uni_decimal : char -> option (fin 10);
  (* [str.isalpha] on one character *)
  uni_alpha : char -> bool;
  (* [str.isalnum] on one character: what [\w] matches besides [_] *)
  uni_alnum : char -> bool;
  (* [str.isspace] on one character: where [str.split] splits *)
  uni_space : char -> bool;
  (* [str.lower] of a string that is not all ASCII; it is not a map over
     the characters (a capital sigma depends on its place in the word,
     some capitals give two code points) *)
  uni_lower : text -> text;
  (* whether the first character, taken from a pattern, matches the second
     under [re.IGNORECASE] *)
  uni_ieq : char -> char -> bool;
  (* [strptime(s, '%d/%m/%Y, %H:%M:%S')] on a stamp with a decimal digit
     that is not ASCII: which positions take such a digit depends on the
     release of the interpreter *)
  strptime_wide : text -> option datetime;
  (* [pd.date_range(start, periods)] when the range runs past 31/12/9999:
     whether it raises depends on the release of pandas *)
  date_range_late : Z -> nat -> result (list Z)
}.

(** ** Characters and substrings *)

Module Chars.

Definition newline : char := 10%N.

Definition between (lo hi : N) (c : char) : bool :=
  ((lo <=? c) && (c <=? hi))%N.

Definition is_ascii (c : char) : bool := (c <? 128)%N.

Definition ascii_digit (c : char) : bool := between 48 57 c.
Definition is_upper (c : char) : bool := between 65 90 c.
Definition is_lower (c : char) : bool := between 97 122 c.
Definition ascii_letter (c : char) : bool := is_upper c || is_lower c.

(** [c.lower()] for an ASCII character *)
Definition ascii_lower (c : char) : char :=
  if is_upper c then (c + 32)%N else c.

(** [.] (no DOTALL flag): anything but a newline *)
Definition is_dot (c : char) : bool := negb (c =? newline)%N.

Section Classes.
Context {py : Platform}.

(** [\d] *)
Definition is_digit (c : char) : bool :=
  if is_ascii c then ascii_digit c
  else match uni_decimal c with Some _ => true | None => false end.

(** [str.isalpha] on one character *)
Definition is_alpha (c : char) : bool :=
  if is_ascii c then ascii_letter c else uni_alpha c.

(** [\w] *)
Definition is_word (c : char) : bool :=
  if is_ascii c then ascii_letter c || ascii_digit c || (c =? ch "_")%N
  else uni_alnum c.

(** [str.isspace] on one character *)
Definition is_space (c : char) : bool :=
  if is_ascii c then between 9 13 c || between 28 32 c else uni_space c.

(** The value [int] gives a decimal digit. *)
Definition digit_value (c : char) : Z :=
  if is_ascii c then (Z.of_N c - 48)%Z
  else match uni_decimal c with
       | Some d => Z.of_nat (fin_to_nat d)
       | None => 0%Z
       end.

(** [s.lower()] *)
Definition lower (s : text) : text :=
  if forallb is_ascii s then map ascii_lower s else uni_lower s.

(** One character [p] of a pattern against one character [c] of the text
    under [re.IGNORECASE]. *)
Definition ieq (p c : char) : bool :=
  if is_ascii p && is_ascii c then (ascii_lower p =? ascii_lower c)%N
  else uni_ieq p c.

End Classes.

End Chars.
Import Chars.

(** The longest prefix whose characters satisfy [p], and what follows it:
    how a greedy [c+] or [c*] consumes when nothing after it can fail. *)
Fixpoint span (p : char -> bool) (s : text) : text * text :=
  match s with
  | [] => ([], [])
  | c :: s' =>
      if p c then let '(a, b) := span p s' in (c :: a, b) else ([], s)
  end.

(** [s] minus the literal prefix [p], when [s] starts with [p]. *)
Fixpoint strip_prefix (p s : text) : option text :=
  match p, s with
  | [], _ => Some s
  | a :: p', b :: s' => if (a =? b)%N then strip_prefix p' s' else None
  | _ :: _, [] => None
  end.

(** [s.startswith(p)] *)
Definition startswith (p s : text) : bool :=
  match strip_prefix p s with Some _ => true | None => false end.

(** [sub in s] *)
Fixpoint contains (sub s : text) : bool :=
  startswith sub s ||
  match s with
  | [] => false
  | _ :: s' => contains sub s'
  end.

(** [int(ds)] for a string of decimal digits (the interpreter's cap on the
    number of digits of such a string is not modelled) *)
Definition int {py : Platform} (ds : text) : Z :=
  fold_left (fun acc c => 10 * acc + digit_value c)%Z ds 0%Z.

(** ** The line pattern

    [pattern = r'\[(\d{2}/\d{2}/\d{4}, \d{2}:\d{2}:\d{2})\] (.+?): (.+)'] *)

Module Pattern.

Inductive token := Lit (c : char) | Digit.

(** [\d{2}/\d{2}/\d{4}, \d{2}:\d{2}:\d{2}], the first group *)
Definition stamp : list token :=
  [Digit; Digit; Lit (ch "/"); Digit; Digit; Lit (ch "/");
   Digit; Digit; Digit; Digit; Lit (ch ","); Lit (ch " ");
   Digit; Digit; Lit (ch ":"); Digit; Digit; Lit (ch ":"); Digit; Digit].

Definition match_token {py : Platform} (t : token) (c : char) : bool :=
  match t with
  | Lit a => (a =? c)%N
  | Digit => is_digit c
  end.

(** Match a sequence of single-character tokens at the start of [s]:
    the matched text and the rest. *)
Fixpoint match_tokens {py : Platform} (p : list token) (s : text)
  : option (text * text) :=
  match p with
  | [] => Some ([], s)
  | t :: p' =>
      match s with
      | [] => None
      | c :: s' =>
          if match_token t c then
            match match_tokens p' s' with
            | Some (m, rest) => Some (c :: m, rest)
            | None => None
            end
          else None
      end
  end.

(** [: (.+)] at the start of [s]: the greedy third group runs to the end of
    the line and has to be non-empty. *)
Definition match_body (s : text) : option (text * text) :=
  match strip_prefix (txt ": ") s with
  | Some s' =>
      match span is_dot s' with
      | ([], _) => None
      | (msg, rest) => Some (msg, rest)
      end
  | None => None
  end.

(** [(.+?): (.+)] at the start of [s]: the lazy second group takes one
    character, then tries the remainder of the pattern, and grows by one
    character each time that fails. *)
Fixpoint match_sender (s : text) : option (text * text * text) :=
  match s with
  | [] => None
  | c :: s' =>
      if is_dot c then
        match match_body s' with
        | Some (msg, rest) => Some ([c], msg, rest)
        | None =>
            match match_sender s' with
            | Some (sender, msg, rest) => Some (c :: sender, msg, rest)
            | None => None
            end
        end
      else None
  end.

(** The whole pattern anchored at the start of [s]: the three groups and
    the text after the match. *)
Definition match_here {py : Platform} (s : text)
  : option (text * text * text * text) :=
  match strip_prefix (txt "[") s with
  | None => None
  | Some s1 =>
      match match_tokens stamp s1 with
      | None => None
      | Some (dt_str, s2) =>
          match strip_prefix (txt "] ") s2 with
          | None => None
          | Some s3 =>
              match match_sender s3 with
              | None => None
              | Some (sender, msg, rest) => Some (dt_str, sender, msg, rest)
              end
          end
      end
  end.

(** The scan of [re.findall]: try the pattern at each position from the
    left; after a match the scan resumes where the match ended, which here
    is [skip] characters further on. *)
Fixpoint scan {py : Platform} (skip : nat) (s : text)
  : list (text * text * text) :=
  match s with
  | [] => []
  | _ :: s' =>
      match skip with
      | S k => scan k s'
      | O =>
          match match_here s with
          | Some (dt_str, sender, msg, rest) =>
              (dt_str, sender, msg) :: scan (length s' - length rest) s'
          | None => scan 0 s'
          end
      end
  end.

(** [re.findall(pattern, content)] *)
Definition findall {py : Platform} (content : text)
  : list (text * text * text) :=
  scan 0 content.

(** [re.search(r'(\d+) (\w+)', s)] anchored at the start of [s]: both
    groups are greedy; a shorter run of digits is followed by a digit, never
    by the space, so backtracking finds nothing more. *)
Definition match_int_word {py : Platform} (s : text) : option (text * text) :=
  match span is_digit s with
  | ([], _) => None
  | (ds, r) =>
      match strip_prefix (txt " ") r with
      | None => None
      | Some r' =>
          match span is_word r' with
          | ([], _) => None
          | (w, _) => Some (ds, w)
          end
      end
  end.

(** [re.search(r'(\d+) (\w+)', s)]: the leftmost match, as its two groups. *)
Fixpoint search_int_word {py : Platform} (s : text) : option (text * text) :=
  match match_int_word s with
  | Some g => Some g
  | None =>
      match s with
      | [] => None
      | _ :: s' => search_int_word s'
      end
  end.

End Pattern.
Import Pattern.

(** ** Dates and times *)

Module Datetime.
Local Open Scope Z_scope.

Definition is_leap (y : Z) : bool :=
  (y mod 4 =? 0) && (negb (y mod 100 =? 0) || (y mod 400 =? 0)).

Definition days_in_month (y m : Z) : Z :=
  if m =? 2 then (if is_leap y then 29 else 28)
  else if (m =? 4) || (m =? 6) || (m =? 9) || (m =? 11) then 30
  else 31.

(** What [datetime(...)] accepts; anything else is a [ValueError]. *)
Definition valid (dt : datetime) : bool :=
  (1 <=? year dt) && (year dt <=? 9999) &&
  (1 <=? month dt) && (month dt <=? 12) &&
  (1 <=? day dt) && (day dt <=? days_in_month (year dt) (month dt)) &&
  (0 <=? hour dt) && (hour dt <=? 23) &&
  (0 <=? minute dt) && (minute dt <=? 59) &&
  (0 <=? second dt) && (second dt <=? 59).

Definition days_before_year (y : Z) : Z :=
  let y' := y - 1 in y' * 365 + y' / 4 - y' / 100 + y' / 400.

(** Days of the year before the first of month [m]. *)
Definition days_before_month (y m : Z) : Z :=
  fold_left (fun acc k => acc + days_in_month y (Z.of_nat k))
            (seq 1 (Z.to_nat (m - 1))) 0.

(** [date.toordinal]: 1 is 01/01/0001. *)
Definition ymd2ord (y m d : Z) : Z :=
  days_before_year y + days_before_month y m + d.

(** [date.max.toordinal()]: the last day of the calendar, 31/12/9999. *)
Definition max_ordinal : Z := ymd2ord 9999 12 31.

(** [.dt.date], as an ordinal *)
Definition date_of (dt : datetime) : Z :=
  ymd2ord (year dt) (month dt) (day dt).

(** [.dt.dayofweek]: Monday is 0 *)
Definition dayofweek (dt : datetime) : Z := (date_of dt + 6) mod 7.

(** Seconds since the midnight before 01/01/0001; the difference of two
    datetimes is the difference of these, in seconds. *)
Definition seconds_of (dt : datetime) : Z :=
  ((date_of dt * 24 + hour dt) * 60 + minute dt) * 60 + second dt.

(** [d + timedelta(days=1)] for a date [d]: there is no day after the last
    one of the calendar. *)
Definition next_day (d : Z) : result Z :=
  if d <? max_ordinal then Ok (d + 1) else Raise OverflowError.

Definition slice (i j : nat) (s : text) : text := take (j - i) (drop i s).

(** [datetime.strptime(s, '%d/%m/%Y, %H:%M:%S')] on a string of the shape
    the first group of [pattern] has.  When its digits are ASCII the fields
    are read off their fixed positions and then checked; an out-of-range
    field raises [ValueError].  When they are not, the interpreter's answer
    is taken from the tables; what it returns has gone through [datetime]
    as well.  (On other shapes the model raises too; [parse_chat] never
    gets there.) *)
Definition strptime {py : Platform} (s : text) : result datetime :=
  match match_tokens stamp s with
  | Some (_, []) =>
      if forallb is_ascii s then
        let dt := {| day := int (slice 0 2 s); month := int (slice 3 5 s);
                     year := int (slice 6 10 s); hour := int (slice 12 14 s);
                     minute := int (slice 15 17 s);
                     second := int (slice 18 20 s) |} in
        if valid dt then Ok dt else Raise ValueError
      else
        match strptime_wide s with
        | Some dt => if valid dt then Ok dt else Raise ValueError
        | None => Raise ValueError
        end
  | _ => Raise ValueError
  end.

End Datetime.
Import Datetime.

(** ** Parsing *)

Record message := mk_message
  { m_datetime : datetime; m_sender : text; m_message : text }.

Inductive call_type := Missed | Completed.

Record call := mk_call
  { c_datetime : datetime; c_initiator : text; c_duration : Z;
    c_type : call_type }.

(** The test that sends a matched line to [calls]. *)
Definition is_call (msg : text) : bool :=
  contains (txt "Video call") msg || contains (txt "Missed video call") msg.

Definition call_type_of (msg : text) : call_type :=
  if contains (txt "Missed") msg then Missed else Completed.

(** [duration] as the call branch leaves it. *)
Definition call_duration {py : Platform} (msg : text) : Z :=
  match call_type_of msg with
  | Missed => 0%Z
  | Completed =>
      match search_int_word msg with
      | Some (val, unit) =>
          if startswith (txt "hr") unit then (int val * 60)%Z else int val
      | None => 0%Z
      end
  end.

(** The loop over [matches], with the two lists it appends to. *)
Fixpoint parse_matches {py : Platform} (matches : list (text * text * text))
    (msgs : list message) (calls : list call)
  : result (list message * list call) :=
  match matches with
  | [] => Ok (msgs, calls)
  | (dt_str, sender, msg) :: matches' =>
      try dt <- strptime dt_str;
      if is_call msg then
        parse_matches matches' msgs
          (calls ++ [mk_call dt sender (call_duration msg) (call_type_of msg)])
      else
        parse_matches matches' (msgs ++ [mk_message dt sender msg]) calls
  end.

(** [parse_chat], from the content of the file on. *)
Definition parse_chat {py : Platform} (content : text)
  : result (list message * list call) :=
  parse_matches (findall content) [] [].

(** ** Tables *)

Module Tables.

(** One more row with key [k] in a table of row counts kept in key order. *)
Fixpoint bump (k : Z) (rows : list (Z * nat)) : list (Z * nat) :=
  match rows with
  | [] => [(k, 1)]
  | (k', n) :: rows' =>
      if (k <? k')%Z then (k, 1) :: rows
      else if (k =? k')%Z then (k', S n) :: rows'
      else (k', n) :: bump k rows'
  end.

(** [groupby(key).size()] and [value_counts().sort_index()]: the number of
    rows per key that occurs, in increasing key order. *)
Definition size_by_key (keys : list Z) : list (Z * nat) :=
  fold_left (fun rows k => bump k rows) keys [].

(** [value_counts()] of a column of senders. *)
Definition value_counts (keys : list text) : gmap text nat :=
  fold_left (fun m k => <[k := S (default 0 (m !! k))]> m) keys ∅.

(** The rows of a two-column table grouped by the first column, each group
    in row order. *)
Definition group_rows {K V} `{Countable K} (rows : list (K * V))
  : gmap K (list V) :=
  fold_left (fun g '(k, v) => <[k := default [] (g !! k) ++ [v]]> g) rows ∅.

Definition Qsum (xs : list Q) : Q := fold_right Qplus 0%Q xs.

Definition mean (xs : list Q) : Q :=
  (Qsum xs / inject_Z (Z.of_nat (length xs)))%Q.

(** [.mean()] of a column with missing values: [None] is NaN. *)
Definition mean_skipna (vs : list (option Q)) : option Q :=
  match omap id vs with
  | [] => None
  | xs => Some (mean xs)
  end.

(** [.rolling(7, center=True).mean()] *)
Definition rolling7 (xs : list nat) : list (option Q) :=
  map (fun i =>
         if (3 <=? i) && (i + 3 <? length xs)
         then Some (mean (map (fun n => inject_Z (Z.of_nat n))
                              (take 7 (drop (i - 3) xs))))
         else None)
      (seq 0 (length xs)).

(** [pd.date_range(start=start, periods=periods)], daily frequency: the
    days from [start] on, when they are days of the calendar. *)
Definition date_range {py : Platform} (start : Z) (periods : nat)
  : result (list Z) :=
  if (start + Z.of_nat periods - 1 <=? max_ordinal)%Z
  then Ok (map (fun i => (start + Z.of_nat i)%Z) (seq 0 periods))
  else date_range_late start periods.

(** [groupby(key)[col].diff()]: each row minus the previous row with the
    same key; [prev] holds the last value seen for each key. *)
Fixpoint groupby_diff (prev : gmap text Z) (rows : list (text * Z))
  : list (option Z) :=
  match rows with
  | [] => []
  | (k, v) :: rows' =>
      ((fun p => (v - p)%Z) <$> prev !! k) :: groupby_diff (<[k := v]> prev) rows'
  end.

End Tables.
Import Tables.

(** ** The stages of [analyze_chat] *)

Definition sender_col (msgs : list message) : list text := map m_sender msgs.

(** The pattern [pat], which has no metacharacter, matched at the start of
    [s] with [re.IGNORECASE]. *)
Fixpoint startswith_nocase {py : Platform} (pat s : text) : bool :=
  match pat, s with
  | [], _ => true
  | p :: pat', c :: s' => ieq p c && startswith_nocase pat' s'
  | _ :: _, [] => false
  end.

(** [.str.contains(pat, case=False)] for a pattern without metacharacters *)
Fixpoint contains_nocase {py : Platform} (pat s : text) : bool :=
  startswith_nocase pat s ||
  match s with
  | [] => false
  | _ :: s' => contains_nocase pat s'
  end.

Definition omitted {py : Platform} (what : string) (msgs : list message)
  : list message :=
  List.filter (fun m => contains_nocase (txt what) (m_message m)) msgs.

Definition msg_count (msgs : list message) : gmap text nat :=
  value_counts (sender_col msgs).

Definition img_count {py : Platform} (msgs : list message) : gmap text nat :=
  value_counts (sender_col (omitted "image omitted" msgs)).

Definition stk_count {py : Platform} (msgs : list message) : gmap text nat :=
  value_counts (sender_col (omitted "sticker omitted" msgs)).

(** [daily['count']] with its date index *)
Definition daily (msgs : list message) : list (Z * nat) :=
  size_by_key (map (fun m => date_of (m_datetime m)) msgs).

(** [hours] *)
Definition hours (msgs : list message) : list (Z * nat) :=
  size_by_key (map (fun m => hour (m_datetime m)) msgs).

(** The [resp_min] column *)
Definition resp_min (msgs : list message) : list (option Q) :=
  map (fmap (fun d => (inject_Z d / 60)%Q))
      (groupby_diff ∅ (map (fun m => (m_sender m, seconds_of (m_datetime m))) msgs)).

(** [resp]: the per-sender mean of [resp_min], senders whose mean is NaN
    dropped. *)
Definition resp (msgs : list message) : gmap text Q :=
  omap mean_skipna (group_rows (zip (sender_col msgs) (resp_min msgs))).

(** [heat]: mean call duration per (day of week, hour) *)
Definition heat (calls : list call) : gmap (Z * Z) Q :=
  (fun ds => mean (map inject_Z ds)) <$>
  group_rows (map (fun c => ((dayofweek (c_datetime c), hour (c_datetime c)),
                             c_duration c)) calls).

Definition is_completed (c : call) : bool :=
  match c_type c with Completed => true | Missed => false end.

(** [total], [len(comp)], [len(miss)], [avg_dur] *)
Definition call_stats (calls : list call) : nat * nat * nat * Q :=
  let comp := List.filter is_completed calls in
  let miss := List.filter (fun c => negb (is_completed c)) calls in
  (length calls, length comp, length miss,
   match comp with
   | [] => 0%Q
   | _ => mean (map (fun c => inject_Z (c_duration c)) comp)
   end).

(** [str.split()]: the maximal runs of non-space characters; [cur] is the
    run being read. *)
Fixpoint split_ws {py : Platform} (cur s : text) : list text :=
  match s with
  | [] => match cur with [] => [] | _ => [cur] end
  | c :: s' =>
      if is_space c
      then match cur with [] => split_ws [] s' | _ => cur :: split_ws [] s' end
      else split_ws (cur ++ [c]) s'
  end.

(** [' '.join(ws)] *)
Fixpoint join_sp (ws : list text) : text :=
  match ws with
  | [] => []
  | [w] => w
  | w :: ws' => w ++ txt " " ++ join_sp ws'
  end.

(** Message lengths per sender, the data of the length histograms. *)
Definition lengths_by_sender (msgs : list message) : gmap text (list nat) :=
  group_rows (map (fun m => (m_sender m, length (m_message m))) msgs).

(** One more occurrence of [c] in a [Counter], which keeps its keys in the
    order of their first occurrence. *)
Fixpoint tally (c : char) (cnt : list (char * nat)) : list (char * nat) :=
  match cnt with
  | [] => [(c, 1)]
  | (c', n) :: cnt' =>
      if (c =? c')%N then (c', S n) :: cnt' else (c', n) :: tally c cnt'
  end.

(** Insertion of one entry into a list sorted by decreasing count, after the
    entries with the same count. *)
Fixpoint insert_by_count (e : char * nat) (l : list (char * nat))
  : list (char * nat) :=
  match l with
  | [] => [e]
  | e' :: l' =>
      if snd e' <? snd e then e :: l else e' :: insert_by_count e l'
  end.

(** [Counter.most_common(n)]: by decreasing count, ties in the order of
    first occurrence. *)
Definition most_common (n : nat) (cnt : list (char * nat))
  : list (char * nat) :=
  take n (fold_left (fun acc e => insert_by_count e acc) cnt []).

(** ** The pipeline *)

Section Pipeline.

Context {py : Platform}.

(** The collaborators of the pipeline that live in other packages:
    the value type of a forecast, the order search of [pmdarima], the fit
    and forecast of [statsmodels], the table of [emoji] and the Spanish
    stopwords of [nltk]. *)
Variable V : Type.
Variable auto_arima : list nat -> result (nat * nat * nat).
Variable arima_forecast : nat * nat * nat -> list nat -> nat -> result (list V).
Variable is_emoji : char -> bool.
Variable spanish_sw : text -> bool.

(** What a stage hands to the plotting layer or prints. *)
Inductive output :=
| CountsBySender (msg img stk : gmap text nat)
| DailyForecast (daily : list (Z * nat)) (trend : list (option Q))
    (order : nat * nat * nat) (fcast : list V) (idx : list Z)
| CallHeatmap (heat : gmap (Z * Z) Q)
| CallStats (stats : nat * nat * nat * Q)
| WordCloud (corpus : text)
| MessageLengths (lengths : gmap text (list nat))
| ActiveHours (hours : list (Z * nat))
| EmojiUsage (top10 : list (char * nat))
| EmojiFallback (top10 : list (char * nat))
| NoEmojis
| ResponseTime (resp : gmap text Q)
| NotEnoughData.

(** The plotting and printing of a stage: the calls into [matplotlib],
    [seaborn] and [wordcloud] and the [print] that follow the table in the
    source.  They return, or they raise: [plt.bar] on heights that do not
    fit the positions of the bars, [WordCloud.generate] on a corpus without
    a word, and so on. *)
Variable render : output -> result unit.

(** A run of the pipeline so far: what has been produced, and whether an
    exception has ended it. *)
Definition run (A : Type) : Type := list output * result A.

(** A stage is done when its table has been drawn or printed. *)
Definition emit (o : output) : run unit :=
  match render o with
  | Ok _ => ([o], Ok tt)
  | Raise e => ([], Raise e)
  end.

Definition lift {A} (r : result A) : run A := ([], r).

Definition and_then {A B} (p : run A) (k : A -> run B) : run B :=
  match p with
  | (out, Ok a) => let '(out', r) := k a in (out ++ out', r)
  | (out, Raise e) => (out, Raise e)
  end.

Notation "'do' x <- p ; k" := (and_then p (fun x => k))
  (at level 10, x pattern, p at level 100, k at level 200).

(** Reading a column of a table built from a list of rows: a table built
    from no rows has no columns. *)
Definition column {A} (rows : list A) : result unit :=
  match rows with
  | [] => Raise KeyError
  | _ => Ok tt
  end.

(** [daily.index[-1]] *)
Definition last_date (d : list (Z * nat)) : result Z :=
  match last (map fst d) with
  | Some k => Ok k
  | None => Raise IndexError
  end.

(** Lines 144 to 146: order search, fit, 30-step forecast and its dates. *)
Definition forecast (d : list (Z * nat))
  : result (nat * nat * nat * list V * list Z) :=
  try order <- auto_arima (map snd d);
  try fcast <- arima_forecast order (map snd d) 30;
  try k <- last_date d;
  try start <- next_day k;
  try idx <- date_range start 30;
  Ok (order, fcast, idx).

(** [corpus] *)
Definition corpus (msgs : list message) : text :=
  join_sp (map (fun m =>
                  join_sp (List.filter
                             (fun w => forallb is_alpha w && negb (spanish_sw w))
                             (split_ws [] (lower (m_message m)))))
               msgs).

(** [counts] of [plot_emoji_usage] *)
Definition emoji_counts (msgs : list message) : list (char * nat) :=
  fold_left (fun cnt c => tally c cnt)
            (List.filter is_emoji (concat (map m_message msgs))) [].

(** [plot_emoji_usage]: nothing to plot without emojis; otherwise the plot
    of the top ten with the emoji font, and the plain plot when that one
    raises. *)
Definition plot_emoji_usage (msgs : list message) : run unit :=
  match emoji_counts msgs with
  | [] => emit NoEmojis
  | cnt =>
      let top10 := most_common 10 cnt in
      match render (EmojiUsage top10) with
      | Ok _ => ([EmojiUsage top10], Ok tt)
      | Raise _ => emit (EmojiFallback top10)
      end
  end.

(** [analyze_message_lengths_by_sender] *)
Definition analyze_message_lengths_by_sender (msgs : list message) : run unit :=
  emit (MessageLengths (lengths_by_sender msgs)).

Definition stages (msgs : list message) (calls : list call) : run unit :=
  (* 1: counts by sender *)
  do _ <- lift (column msgs);
  do _ <- emit (CountsBySender (msg_count msgs) (img_count msgs) (stk_count msgs));
  (* 2: time series + ARIMA *)
  do (order, fcast, idx) <- lift (forecast (daily msgs));
  do _ <- emit (DailyForecast (daily msgs) (rolling7 (map snd (daily msgs)))
                              order fcast idx);
  (* 3: call heatmap *)
  do _ <- match calls with
          | [] => lift (Ok tt)
          | _ => emit (CallHeatmap (heat calls))
          end;
  (* 4: stats *)
  do _ <- lift (column calls);
  do _ <- emit (CallStats (call_stats calls));
  (* 5: word cloud *)
  do _ <- emit (WordCloud (corpus msgs));
  do _ <- analyze_message_lengths_by_sender msgs;
  (* 7: active hours *)
  do _ <- emit (ActiveHours (hours msgs));
  do _ <- plot_emoji_usage msgs;
  (* 9: response times *)
  if decide (resp msgs = ∅) then emit NotEnoughData
  else emit (ResponseTime (resp msgs)).

(** [analyze_chat], from the content of the file on. *)
Definition analyze_chat (content : text) : run unit :=
  do (msgs, calls) <- lift (parse_chat content);
  stages msgs calls.

End Pipeline.

Arguments CountsBySender {V}.
Arguments DailyForecast {V}.
Arguments CallHeatmap {V}.
Arguments CallStats {V}.
Arguments WordCloud {V}.
Arguments MessageLengths {V}.
Arguments ActiveHours {V}.
Arguments EmojiUsage {V}.
Arguments EmojiFallback {V}.
Arguments NoEmojis {V}.
Arguments ResponseTime {V}.
Arguments NotEnoughData {V}.

(** * Specification vocabulary *)

(** [occurs sub s]: [sub] is a substring of [s]. *)
Definition occurs (sub s : text) : Prop :=
  exists pre post, s = pre ++ sub ++ post.

(** [ends_run p s]: [s] does not start with a character of class [p]. *)
Definition ends_run (p : char -> bool) (s : text) : Prop :=
  match s with
  | [] => True
  | c :: _ => p c = false
  end.

(** [int_word_at s pre ds w post]: after [pre], [s] has the integer [ds],
    one space and the word [w], and the word ends there. *)
Record int_word_at {py : Platform} (s pre ds w post : text) : Prop := mk_int_word_at
  { iw_split : s = pre ++ ds ++ txt " " ++ w ++ post;
    iw_digits : forallb is_digit ds = true;
    iw_some_digit : ds <> [];
    iw_word : forallb is_word w = true;
    iw_some_letter : w <> [];
    iw_end : ends_run is_word post }.

(** The pattern matches at none of the first [n] positions of [s]. *)
Definition no_int_word_before {py : Platform} (n : nat) (s : text) : bool :=
  forallb (fun i => match match_int_word (drop i s) with
                    | Some _ => false
                    | None => true
                    end) (seq 0 n).

(** [line_text s]: [s] is non-empty and stays on one line, what [.+] and
    [.+?] can match. *)
Definition line_text (s : text) : Prop :=
  s <> [] /\ forallb is_dot s = true.

(** [line_start pre]: the text [pre] ends at the start of a line. *)
Definition line_start (pre : text) : Prop :=
  pre = [] \/ exists pre', pre = pre' ++ [newline].

Definition dt_str_of (g : text * text * text) : text := g.1.1.
Definition sender_of (g : text * text * text) : text := g.1.2.
Definition body_of (g : text * text * text) : text := g.2.

(** [m] is the message record of the match [g]. *)
Definition message_of {py : Platform} (g : text * text * text) (m : message)
  : Prop :=
  strptime (dt_str_of g) = Ok (m_datetime m) /\
  m_sender m = sender_of g /\ m_message m = body_of g.

(** [c] is the call record of the match [g]. *)
Definition call_of {py : Platform} (g : text * text * text) (c : call)
  : Prop :=
  strptime (dt_str_of g) = Ok (c_datetime c) /\
  c_initiator c = sender_of g /\
  c_duration c = call_duration (body_of g) /\
  c_type c = call_type_of (body_of g).

(** [y]-[m]-[d] is a date of the calendar. *)
Definition valid_date (y m d : Z) : Prop :=
  (1 <= y /\ 1 <= m <= 12 /\ 1 <= d <= days_in_month y m)%Z.

Definition days_in_year (y : Z) : Z := (if is_leap y then 366 else 365)%Z.

(** [lookup_row k rows]: the count in the row with index [k], if any. *)
Fixpoint lookup_row (k : Z) (rows : list (Z * nat)) : option nat :=
  match rows with
  | [] => None
  | (k', n) :: rows' => if (k =? k')%Z then Some n else lookup_row k rows'
  end.

(** The number of occurrences of [k] in a column. *)
Definition occurrences (k : Z) (keys : list Z) : nat :=
  length (List.filter (Z.eqb k) keys).

Definition increasing (ks : list Z) : Prop := StronglySorted Z.lt ks.

Definition date_col (msgs : list message) : list Z :=
  map (fun m => date_of (m_datetime m)) msgs.

Definition hour_col (msgs : list message) : list Z :=
  map (fun m => hour (m_datetime m)) msgs.

(** The number of rows of a sender column that hold [k]. *)
Definition rows_with (k : text) (keys : list text) : nat :=
  length (List.filter (fun k' => bool_decide (k' = k)) keys).

(** The second column of the rows whose first column is [k], in order. *)
Definition rows_of {V} (k : text) (rows : list (text * V)) : list V :=
  map snd (List.filter (fun r => bool_decide (r.1 = k)) rows).

(** The differences of consecutive entries. *)
Fixpoint gaps (ts : list Z) : list Z :=
  match ts with
  | t0 :: (t1 :: _) as ts' => (t1 - t0)%Z :: gaps ts'
  | _ => []
  end.

(** Seconds to minutes, as [.dt.total_seconds()/60]. *)
Definition minutes (d : Z) : Q := (inject_Z d / 60)%Q.

(** The timestamps of the messages of [sender], in chat order. *)
Definition times_of (sender : text) (msgs : list message) : list Z :=
  map (fun m => seconds_of (m_datetime m))
      (List.filter (fun m => bool_decide (m_sender m = sender)) msgs).


(** The fields of a match written back as a line. *)
Definition serialize (g : text * text * text) : text :=
  txt "[" ++ dt_str_of g ++ txt "] " ++ sender_of g ++ txt ": " ++ body_of g.

(** The sum of a table of counts per sender. *)
Definition total (m : gmap text nat) : nat :=
  map_fold (fun _ n acc => n + acc) 0 m.

(** The sum of the counts of a table of rows. *)
Definition row_total (rows : list (Z * nat)) : nat :=
  foldr (fun r acc => r.2 + acc) 0 rows.

(** Same day, month and year. *)
Definition same_day (a b : datetime) : bool :=
  ((year a =? year b) && (month a =? month b) && (day a =? day b))%Z.

(** The sum of a list of integers. *)
Definition Zsum (xs : list Z) : Z := foldr Z.add 0%Z xs.

(** The words of one message that go into the corpus. *)
Definition kept_words {py : Platform} (spanish_sw : text -> bool) (m : message)
  : list text :=
  List.filter (fun w => forallb is_alpha w && negb (spanish_sw w))
              (split_ws [] (lower (m_message m))).

(** A word as [str.split] gives it: non-empty and without white space. *)
Definition is_token {py : Platform} (w : text) : Prop :=
  w <> [] /\ forallb (fun c => negb (is_space c)) w = true.

(** [counts[c]] for a key of a [Counter]. *)
Fixpoint lookup_count (c : char) (cnt : list (char * nat)) : option nat :=
  match cnt with
  | [] => None
  | (c', n) :: cnt' => if (c =? c')%N then Some n else lookup_count c cnt'
  end.

(** The number of occurrences of [c] in a text. *)
Definition count_char (c : char) (s : text) : nat :=
  length (List.filter (N.eqb c) s).

(** [all_emojis]: the emoji characters of all messages, in chat order. *)
Definition all_emojis (is_emoji : char -> bool) (msgs : list message) : text :=
  List.filter is_emoji (concat (map m_message msgs)).

(** [a] comes before [b] in decreasing order of count. *)
Definition by_count (a b : char * nat) : Prop := snd b <= snd a.

(** * Sample chats and stand-in collaborators *)

Definition ts0 : datetime := mk_datetime 2024 1 1 10 0 0.

Definition stamp0 : text := txt "01/01/2024, 10:00:00".

(** ["\n".join(ls)] *)
Fixpoint unlines (ls : list text) : text :=
  match ls with
  | [] => []
  | [l] => l
  | l :: ls' => l ++ newline :: unlines ls'
  end.


Definition chat_good : text :=
  unlines [txt "[01/01/2024, 10:00:00] Alice: hi";
           txt "[01/01/2024, 10:05:00] Bob: hey";
           txt "[01/01/2024, 10:10:00] Alice: how are you";
           txt "[02/01/2024, 09:00:00] Bob: Missed video call"].

Definition chat_bad_call : text :=
  txt "[32/01/2024, 10:00:00] Bob: Video call".

Definition chat_good_msgs : list message :=
  [mk_message (mk_datetime 2024 1 1 10 0 0) (txt "Alice") (txt "hi");
   mk_message (mk_datetime 2024 1 1 10 5 0) (txt "Bob") (txt "hey");
   mk_message (mk_datetime 2024 1 1 10 10 0) (txt "Alice") (txt "how are you")].

Definition chat_good_calls : list call :=
  [mk_call (mk_datetime 2024 1 2 9 0 0) (txt "Bob") 0 Missed].

Definition chat_gap : text :=
  unlines [txt "[01/01/2024, 10:00:00] Alice: image omitted";
           txt "[01/01/2024, 10:01:00] Alice: sticker omitted";
           txt "[03/01/2024, 10:05:00] Alice: hey"].

Definition chat_gap_msgs : list message :=
  [mk_message (mk_datetime 2024 1 1 10 0 0) (txt "Alice") (txt "image omitted");
   mk_message (mk_datetime 2024 1 1 10 1 0) (txt "Alice")
              (txt "sticker omitted");
   mk_message (mk_datetime 2024 1 3 10 5 0) (txt "Alice") (txt "hey")].

(** One day of chat in which every sender has an image and a sticker. *)
Definition chat_one_day : text :=
  unlines [txt "[01/01/2024, 10:00:00] Alice: hola";
           txt "[01/01/2024, 10:01:00] Alice: image omitted";
           txt "[01/01/2024, 10:02:00] Alice: sticker omitted";
           txt "[01/01/2024, 10:05:00] Bob: hey";
           txt "[01/01/2024, 10:06:00] Bob: image omitted";
           txt "[01/01/2024, 10:07:00] Bob: sticker omitted";
           txt "[01/01/2024, 11:00:00] Bob: Missed video call"].

(** Four days of chat, written around 10 and around 22 o'clock. *)
Definition chat_four_days : text :=
  unlines [txt "[01/01/2024, 10:00:00] Alice: hola";
           txt "[01/01/2024, 10:01:00] Alice: image omitted";
           txt "[01/01/2024, 10:02:00] Alice: sticker omitted";
           txt "[01/01/2024, 22:05:00] Bob: hey";
           txt "[02/01/2024, 10:06:00] Bob: image omitted";
           txt "[02/01/2024, 10:07:00] Bob: sticker omitted";
           txt "[03/01/2024, 09:00:00] Bob: Video call 45 min";
           txt "[03/01/2024, 22:30:00] Alice: buenas noches";
           txt "[04/01/2024, 10:15:00] Bob: vale"].

Definition chat_image : text :=
  unlines [txt "[01/01/2024, 10:00:00] Alice: image omitted";
           txt "[01/01/2024, 10:05:00] Bob: hey"].

Definition chat_image_msgs : list message :=
  [mk_message (mk_datetime 2024 1 1 10 0 0) (txt "Alice") (txt "image omitted");
   mk_message (mk_datetime 2024 1 1 10 5 0) (txt "Bob") (txt "hey")].

(** Three senders: Alice writes three times, Bob twice, Carol once. *)
Definition chat_replies : text :=
  unlines [txt "[01/01/2024, 10:00:00] Alice: hi";
           txt "[01/01/2024, 10:05:00] Bob: hey";
           txt "[01/01/2024, 10:10:00] Alice: how are you";
           txt "[01/01/2024, 10:20:00] Carol: hola";
           txt "[01/01/2024, 10:40:00] Alice: ok";
           txt "[01/01/2024, 10:40:00] Bob: fine"].

Definition chat_replies_msgs : list message :=
  [mk_message (mk_datetime 2024 1 1 10 0 0) (txt "Alice") (txt "hi");
   mk_message (mk_datetime 2024 1 1 10 5 0) (txt "Bob") (txt "hey");
   mk_message (mk_datetime 2024 1 1 10 10 0) (txt "Alice") (txt "how are you");
   mk_message (mk_datetime 2024 1 1 10 20 0) (txt "Carol") (txt "hola");
   mk_message (mk_datetime 2024 1 1 10 40 0) (txt "Alice") (txt "ok");
   mk_message (mk_datetime 2024 1 1 10 40 0) (txt "Bob") (txt "fine")].

(** A chat whose last message is sent on the last day of the calendar. *)
Definition chat_last_day : text :=
  unlines [txt "[30/12/9999, 10:00:00] Alice: image omitted";
           txt "[31/12/9999, 10:01:00] Alice: sticker omitted"].

Definition chat_last_day_msgs : list message :=
  [mk_message (mk_datetime 9999 12 30 10 0 0) (txt "Alice")
              (txt "image omitted");
   mk_message (mk_datetime 9999 12 31 10 1 0) (txt "Alice")
              (txt "sticker omitted")].

(** A platform that knows no digit, letter or space outside ASCII and
    raises on a range of dates that leaves the calendar.  The sample chats
    are ASCII and none of them has a forecast that leaves the calendar, so
    what is computed on them is the same on every platform. *)
#[global] Instance ascii_only : Platform :=
  {| uni_decimal := fun _ => None;
     uni_alpha := fun _ => false;
     uni_alnum := fun _ => false;
     uni_space := fun _ => false;
     uni_lower := fun s => s;
     uni_ieq := fun _ _ => false;
     strptime_wide := fun _ => None;
     date_range_late := fun _ _ => Raise ValueError |}.

(** A stand-in plotting layer that never raises. *)
Definition renders_all {V} (o : output V) : result unit := Ok tt.

(** A stand-in plotting layer in which the bar chart of the counts by
    sender raises. *)
Definition no_bar_chart {V} (o : output V) : result unit :=
  match o with
  | CountsBySender _ _ _ => Raise ValueError
  | _ => Ok tt
  end.

(** A stand-in forecaster that never fails: order (0,0,0) and the last
    count repeated. *)
Definition naive_order (xs : list nat) : result (nat * nat * nat) :=
  Ok (0, 0, 0).

Definition naive_forecast (order : nat * nat * nat) (xs : list nat) (n : nat)
  : result (list nat) :=
  Ok (repeat (List.last xs 0) n).

(** A stand-in order search that fails to converge. *)
Definition failing_order (xs : list nat) : result (nat * nat * nat) :=
  Raise ValueError.

Definition no_emoji (c : char) : bool := false.
Definition no_stopword (w : text) : bool := false.

(** * Properties *)

(** ** Substrings *)

Lemma strip_prefix_app (p s r : text) :
  strip_prefix p s = Some r <-> s = p ++ r.
Proof.
  revert s. induction p as [|a p IH]; intros s; simpl.
  - split; congruence.
  - destruct s as [|b s]; [split; discriminate|].
    destruct (N.eqb_spec a b) as [->|Hne].
    + rewrite IH. split; congruence.
    + split; [discriminate | congruence].
Qed.

Lemma strip_prefix_here (p r : text) : strip_prefix p (p ++ r) = Some r.
Proof. by apply strip_prefix_app. Qed.

Lemma startswith_app (p s : text) :
  startswith p s = true <-> exists r, s = p ++ r.
Proof.
  unfold startswith. destruct (strip_prefix p s) as [r|] eqn:E.
  - apply strip_prefix_app in E. split; eauto.
  - split; [discriminate|]. intros [r Hr].
    apply strip_prefix_app in Hr. congruence.
Qed.

Lemma contains_occurs (sub s : text) :
  contains sub s = true <-> occurs sub s.
Proof.
  induction s as [|c s IH]; simpl.
  - rewrite orb_false_r, startswith_app. split.
    + intros [r Hr]. by exists [], r.
    + intros (pre & post & H). destruct pre; [by exists post|discriminate].
  - rewrite orb_true_iff, startswith_app, IH. split.
    + intros [[r Hr]|(pre & post & H)].
      * by exists [], r.
      * exists (c :: pre), post. by rewrite H.
    + intros (pre & post & H). destruct pre as [|c' pre].
      * left. by exists post.
      * right. exists pre, post. simpl in H. congruence.
Qed.

Lemma contains_false (sub s : text) :
  contains sub s = false <-> ~ occurs sub s.
Proof.
  rewrite <- contains_occurs. destruct (contains sub s); split;
    try congruence; intros H; by destruct H.
Qed.

(** ** Greedy runs *)

Lemma span_spec p s a b :
  span p s = (a, b) ->
  s = a ++ b /\ forallb p a = true /\ ends_run p b.
Proof.
  revert a b. induction s as [|c s IH]; simpl; intros a b E.
  - by inversion E.
  - destruct (p c) eqn:Hc.
    + destruct (span p s) as [a' b'] eqn:E'. inversion E; subst.
      destruct (IH _ _ eq_refl) as (-> & Ha & Hb).
      simpl. by rewrite Hc.
    + inversion E; subst. by simpl.
Qed.

Lemma span_app p a b :
  forallb p a = true -> ends_run p b -> span p (a ++ b) = (a, b).
Proof.
  intros Ha Hb. induction a as [|c a IH]; simpl in *.
  - destruct b as [|c b]; [done|]. simpl in *. by rewrite Hb.
  - apply andb_true_iff in Ha as [-> Ha]. by rewrite IH.
Qed.

(** ** Call durations *)

Lemma match_int_word_here {py : Platform} ds w post :
  forallb is_digit ds = true -> ds <> [] ->
  forallb is_word w = true -> w <> [] -> ends_run is_word post ->
  match_int_word (ds ++ txt " " ++ w ++ post) = Some (ds, w).
Proof.
  intros Hd Hd0 Hw Hw0 Hp. unfold match_int_word.
  rewrite (span_app is_digit ds) by done.
  destruct ds as [|d ds]; [done|].
  rewrite strip_prefix_here, (span_app is_word w) by done.
  by destruct w.
Qed.

Lemma match_int_word_sound {py : Platform} s ds w :
  match_int_word s = Some (ds, w) ->
  exists post, int_word_at s [] ds w post.
Proof.
  unfold match_int_word. intros H.
  destruct (span is_digit s) as [a r] eqn:Ea.
  apply span_spec in Ea as (-> & Ha & _).
  destruct a as [|d a]; [done|].
  destruct (strip_prefix (txt " ") r) as [r'|] eqn:Er; [|done].
  apply strip_prefix_app in Er as ->.
  destruct (span is_word r') as [b post] eqn:Eb.
  apply span_spec in Eb as (-> & Hb & Hpost).
  destruct b as [|l b]; [done|]. inversion H; subst.
  exists post. by split.
Qed.

Lemma search_int_word_unfold {py : Platform} s :
  search_int_word s =
    match match_int_word s with
    | Some g => Some g
    | None => match s with [] => None | _ :: s' => search_int_word s' end
    end.
Proof. by destruct s. Qed.

Lemma int_word_at_tail {py : Platform} c s pre ds w post :
  int_word_at s pre ds w post -> int_word_at (c :: s) (c :: pre) ds w post.
Proof. intros [-> ? ? ? ? ?]. by split. Qed.

Lemma search_int_word_first {py : Platform} s pre ds w post :
  int_word_at s pre ds w post ->
  (forall pre' ds' w' post',
      int_word_at s pre' ds' w' post' -> length pre <= length pre') ->
  search_int_word s = Some (ds, w).
Proof.
  revert s. induction pre as [|c pre IH]; intros s [-> Hd Hd0 Hw Hw0 Hp] Hfirst;
    rewrite search_int_word_unfold.
  - by rewrite app_nil_l, match_int_word_here.
  - rewrite <- app_comm_cons in *.
    destruct (match_int_word _) as [[ds' w']|] eqn:E.
    + apply match_int_word_sound in E as [post' H'].
      apply Hfirst in H'. simpl in H'. lia.
    + apply IH; [by split|].
      intros pre' ds' w' post' H'.
      apply (int_word_at_tail c), Hfirst in H'. simpl in H'. lia.
Qed.


Lemma int_word_at_match {py : Platform} s pre ds w post :
  int_word_at s pre ds w post ->
  match_int_word (drop (length pre) s) = Some (ds, w).
Proof.
  intros [-> ? ? ? ? ?]. rewrite drop_app_length.
  by apply match_int_word_here.
Qed.

Lemma no_int_word_before_first {py : Platform} n s pre ds w post :
  no_int_word_before n s = true ->
  int_word_at s pre ds w post -> n <= length pre.
Proof.
  intros Hn Hat. apply int_word_at_match in Hat.
  destruct (decide (n <= length pre)) as [|Hlt]; [done|].
  unfold no_int_word_before in Hn. rewrite forallb_forall in Hn.
  specialize (Hn (length pre)). rewrite Hat in Hn.
  discriminate Hn. apply in_seq. lia.
Qed.




(** A word may hold letters that are not ASCII: with [é] a letter of the
    tables, "5 été" is an integer and a word. *)
Lemma call_duration_accented {py : Platform} :
  uni_alnum 233 = true ->
  call_duration (txt "Video call 5 " ++ [233; 116; 233]%N) = 5%Z.
Proof.
  intros He. unfold call_duration.
  replace (call_type_of _) with Completed by (vm_compute; reflexivity).
  rewrite (search_int_word_first _ (txt "Video call ") (txt "5")
             [233; 116; 233]%N []).
  - reflexivity.
  - split; try done. cbn [forallb]. unfold is_word. cbn. by rewrite He.
  - intros pre' ds' w' post'. apply (no_int_word_before_first 11).
    vm_compute. reflexivity.
Qed.

(** And the first integer followed by a word may be followed by a word that
    starts with a letter that is not ASCII: with the micro sign a letter of
    the tables, "2 µs" comes before "3 hr". *)
Lemma call_duration_micro {py : Platform} :
  uni_alnum 181 = true ->
  call_duration (txt "Video call 2 " ++ [181%N] ++ txt "s 3 hr") = 2%Z.
Proof.
  intros Hm. unfold call_duration.
  replace (call_type_of _) with Completed by (vm_compute; reflexivity).
  rewrite (search_int_word_first _ (txt "Video call ") (txt "2")
             (181%N :: txt "s") (txt " 3 hr")).
  - reflexivity.
  - split; try done. cbn [forallb]. unfold is_word at 1. cbn. by rewrite Hm.
  - intros pre' ds' w' post'. apply (no_int_word_before_first 11).
    vm_compute. reflexivity.
Qed.

(** ** The line pattern *)

Lemma dot_not_newline : is_dot newline = false.
Proof. reflexivity. Qed.

(** Where a line ends is determined by the text. *)
Lemma line_end_unique (a a' r r' : text) :
  forallb is_dot a = true -> forallb is_dot a' = true ->
  ends_run is_dot r -> ends_run is_dot r' ->
  a ++ r = a' ++ r' -> a = a' /\ r = r'.
Proof.
  intros Ha Ha' Hr Hr' E.
  pose proof (span_app is_dot a r Ha Hr) as H1.
  pose proof (span_app is_dot a' r' Ha' Hr') as H2.
  rewrite E in H1. rewrite H1 in H2. by inversion H2.
Qed.

Lemma match_tokens_split {py : Platform} p s m rest :
  match_tokens p s = Some (m, rest) -> s = m ++ rest.
Proof.
  revert s m. induction p as [|t p IH]; simpl; intros s m H.
  - by inversion H.
  - destruct s as [|c s]; [done|].
    destruct (match_token t c); [|done].
    destruct (match_tokens p s) as [[m' rest']|] eqn:E; [|done].
    inversion H; subst. by rewrite (IH _ _ E).
Qed.

Lemma match_tokens_app {py : Platform} p ts rest :
  match_tokens p ts = Some (ts, []) ->
  match_tokens p (ts ++ rest) = Some (ts, rest).
Proof.
  revert ts. induction p as [|t p IH]; simpl; intros ts H.
  - inversion H. by subst.
  - destruct ts as [|c ts]; [done|]. simpl.
    destruct (match_token t c); [|done].
    destruct (match_tokens p ts) as [[m' rest']|] eqn:E; [|done].
    inversion H; subst. by rewrite (IH _ E).
Qed.

Lemma match_tokens_whole {py : Platform} p s m rest :
  match_tokens p s = Some (m, rest) -> match_tokens p m = Some (m, []).
Proof.
  revert s m. induction p as [|t p IH]; simpl; intros s m H.
  - by inversion H.
  - destruct s as [|c s]; [done|].
    destruct (match_token t c) eqn:Et; [|done].
    destruct (match_tokens p s) as [[m' rest']|] eqn:E; [|done].
    inversion H; subst. by rewrite Et, (IH _ _ E).
Qed.

(** No token of the pattern matches a newline, so a match never runs over
    the end of a line. *)
Lemma match_tokens_newline {py : Platform} p x y :
  forallb (fun t => negb (match_token t newline)) p = true ->
  match_tokens p (x ++ newline :: y) =
    (fun '(m, r) => (m, r ++ newline :: y)) <$> match_tokens p x.
Proof.
  revert x. induction p as [|t p IH]; simpl; intros x Hp; [done|].
  apply andb_true_iff in Hp as [Ht Hp].
  destruct x as [|c x]; simpl.
  - by destruct (match_token t newline).
  - destruct (match_token t c); [|done].
    rewrite IH by done. by destruct (match_tokens p x) as [[? ?]|].
Qed.

Lemma span_dot_newline x y :
  span is_dot (x ++ newline :: y) =
    (fun '(a, b) => (a, b ++ newline :: y)) (span is_dot x).
Proof.
  induction x as [|c x IH]; simpl; [done|].
  destruct (is_dot c); [|done].
  rewrite IH. by destruct (span is_dot x).
Qed.

Lemma strip_prefix_newline p x y :
  forallb is_dot p = true ->
  strip_prefix p (x ++ newline :: y) =
    (fun r => r ++ newline :: y) <$> strip_prefix p x.
Proof.
  revert x. induction p as [|a p IH]; simpl; intros x Hp; [done|].
  apply andb_true_iff in Hp as [Ha Hp].
  destruct x as [|c x]; simpl.
  - destruct (N.eqb_spec a newline) as [->|]; [done|done].
  - destruct (a =? c)%N; [by apply IH|done].
Qed.

Lemma match_body_newline x y :
  match_body (x ++ newline :: y) =
    (fun '(m, r) => (m, r ++ newline :: y)) <$> match_body x.
Proof.
  unfold match_body. rewrite strip_prefix_newline by done.
  destruct (strip_prefix (txt ": ") x) as [x'|]; simpl; [|done].
  rewrite span_dot_newline.
  destruct (span is_dot x') as [[|c m] r]; done.
Qed.

Lemma match_sender_newline x y :
  match_sender (x ++ newline :: y) =
    (fun '(s, m, r) => (s, m, r ++ newline :: y)) <$> match_sender x.
Proof.
  induction x as [|c x IH]; simpl; [done|].
  destruct (is_dot c); [|done].
  rewrite match_body_newline, IH.
  destruct (match_body x) as [[m r]|]; simpl; [done|].
  by destruct (match_sender x) as [[[s m] r]|].
Qed.

Lemma match_here_newline {py : Platform} x y :
  match_here (x ++ newline :: y) =
    (fun '(d, s, m, r) => (d, s, m, r ++ newline :: y)) <$> match_here x.
Proof.
  unfold match_here. rewrite strip_prefix_newline by done.
  destruct (strip_prefix (txt "[") x) as [x1|]; [|done].
  cbn [fmap option_fmap option_map].
  rewrite match_tokens_newline by done.
  destruct (match_tokens stamp x1) as [[d x2]|]; [|done].
  cbn [fmap option_fmap option_map].
  rewrite strip_prefix_newline by done.
  destruct (strip_prefix (txt "] ") x2) as [x3|]; [|done].
  cbn [fmap option_fmap option_map].
  rewrite match_sender_newline.
  by destruct (match_sender x3) as [[[s m] r]|].
Qed.

Lemma match_body_here b post :
  line_text b -> ends_run is_dot post ->
  match_body (txt ": " ++ b ++ post) = Some (b, post).
Proof.
  intros [Hb0 Hb] Hp. unfold match_body.
  rewrite strip_prefix_here, span_app by done. by destruct b.
Qed.

Lemma match_body_sound s b rest :
  match_body s = Some (b, rest) ->
  s = txt ": " ++ b ++ rest /\ line_text b /\ ends_run is_dot rest.
Proof.
  unfold match_body. intros H.
  destruct (strip_prefix (txt ": ") s) as [s'|] eqn:E; [|done].
  apply strip_prefix_app in E as ->.
  destruct (span is_dot s') as [m r] eqn:Em.
  apply span_spec in Em as (-> & Hm & Hr).
  destruct m as [|c m]; [done|]. inversion H; subst. by repeat split.
Qed.

Lemma match_sender_sound s sender msg rest :
  match_sender s = Some (sender, msg, rest) ->
  s = sender ++ txt ": " ++ msg ++ rest /\
  line_text sender /\ line_text msg /\ ends_run is_dot rest.
Proof.
  revert sender. induction s as [|c s IH]; cbn [match_sender]; intros sender H;
    [done|].
  destruct (is_dot c) eqn:Hc; [|done].
  destruct (match_body s) as [[m r]|] eqn:Eb.
  - injection H as <- <- <-.
    apply match_body_sound in Eb as (-> & Hm & Hr).
    split; [done|]. split; [|done]. split; [done|].
    cbn [forallb]. by rewrite Hc.
  - destruct (match_sender s) as [[[s0 m] r]|] eqn:Es; [|done].
    injection H as <- <- <-.
    destruct (IH _ eq_refl) as (-> & [_ Hs0] & Hm & Hr).
    split; [done|]. split; [|done]. split; [done|].
    cbn [forallb]. by rewrite Hc, Hs0.
Qed.

(** The lazy group stops at the first place where the rest of the pattern
    matches: no shorter non-empty sender leaves a [": "] and a body. *)
Lemma match_sender_shortest s sender msg rest sender' msg' rest' :
  match_sender s = Some (sender, msg, rest) ->
  sender' <> [] -> line_text msg' -> ends_run is_dot rest' ->
  s = sender' ++ txt ": " ++ msg' ++ rest' ->
  length sender <= length sender'.
Proof.
  revert sender sender'.
  induction s as [|c s IH]; cbn [match_sender];
    intros sender sender' H Hs' Hm' Hr' E; [done|].
  destruct (is_dot c); [|done].
  destruct sender' as [|c' sender']; [done|].
  rewrite <- app_comm_cons in E. apply (inj2 cons) in E as [<- E].
  destruct (match_body s) as [[m r]|] eqn:Eb.
  - injection H as <- _ _. cbn [length]. lia.
  - destruct (match_sender s) as [[[s0 m] r]|] eqn:Es; [|done].
    injection H as <- <- <-. cbn [length].
    destruct sender' as [|c'' sender'].
    + rewrite E, app_nil_l, match_body_here in Eb; done.
    + apply le_n_S. by apply (IH _ (c'' :: sender') eq_refl).
Qed.

Lemma match_sender_complete sender' msg' rest :
  line_text sender' -> line_text msg' -> ends_run is_dot rest ->
  exists sender msg,
    match_sender (sender' ++ txt ": " ++ msg' ++ rest)
      = Some (sender, msg, rest) /\
    sender ++ txt ": " ++ msg = sender' ++ txt ": " ++ msg'.
Proof.
  intros [Hs0 Hs] Hm Hr.
  induction sender' as [|c s' IH]; [done|]. clear Hs0.
  cbn [forallb] in Hs. apply andb_true_iff in Hs as [Hc Hs].
  rewrite <- app_comm_cons. cbn [match_sender]. rewrite Hc.
  destruct (match_body _) as [[m r]|] eqn:Eb.
  - apply match_body_sound in Eb as (E & [Hm0 Hmd] & Hrd).
    exists [c], m.
    assert (s' ++ txt ": " ++ msg' = txt ": " ++ m /\ rest = r) as [E' ->].
    { apply line_end_unique.
      - destruct Hm as [_ Hm]. by rewrite !forallb_app, Hs, Hm.
      - by rewrite forallb_app, Hmd.
      - done.
      - done.
      - by rewrite <- !app_assoc. }
    split; [done|]. rewrite <- !app_comm_cons, app_nil_l. by rewrite E'.
  - destruct s' as [|c' s'].
    + rewrite app_nil_l, match_body_here in Eb; done.
    + destruct IH as (s0 & m & -> & E); [done|done|].
      exists (c :: s0), m. split; [done|].
      rewrite <- !app_comm_cons. by rewrite E.
Qed.

(** A sender with no [": "] after its first character is matched whole. *)
Lemma first_delimiter sender msg sender' msg' :
  sender <> [] -> ~ occurs (txt ": ") (tail sender') ->
  length sender <= length sender' ->
  sender ++ txt ": " ++ msg = sender' ++ txt ": " ++ msg' ->
  sender = sender' /\ msg = msg'.
Proof.
  intros Hs Hno Hlen E.
  apply app_eq_app in E as [k [[-> E]|[-> E]]].
  - rewrite length_app in Hlen. destruct k; [|simpl in Hlen; lia].
    rewrite app_nil_r. simpl in E. split; congruence.
  - destruct k as [|a k]; [rewrite app_nil_r; simpl in E; split; congruence|].
    exfalso. destruct k as [|b k]; simpl in E; inversion E; subst.
    apply Hno. destruct sender as [|c sender]; [done|].
    by exists sender, k.
Qed.

Lemma match_here_line {py : Platform} ts rest :
  match_tokens stamp ts = Some (ts, []) ->
  match_here (txt "[" ++ ts ++ txt "] " ++ rest) =
    (fun '(s, m, r) => (ts, s, m, r)) <$> match_sender rest.
Proof.
  intros Hts. unfold match_here.
  rewrite strip_prefix_here, (match_tokens_app _ _ _ Hts), strip_prefix_here.
  by destruct (match_sender rest) as [[[s m] r]|].
Qed.

Lemma match_here_sound {py : Platform} s ts sender msg rest :
  match_here s = Some (ts, sender, msg, rest) ->
  s = txt "[" ++ ts ++ txt "] " ++ sender ++ txt ": " ++ msg ++ rest /\
  match_tokens stamp ts = Some (ts, []) /\
  line_text sender /\ line_text msg /\ ends_run is_dot rest.
Proof.
  unfold match_here. intros H.
  destruct (strip_prefix (txt "[") s) as [s1|] eqn:E1; [|done].
  apply strip_prefix_app in E1 as ->.
  destruct (match_tokens stamp s1) as [[d s2]|] eqn:E2; [|done].
  pose proof (match_tokens_whole _ _ _ _ E2) as Hd.
  apply match_tokens_split in E2 as ->.
  destruct (strip_prefix (txt "] ") s2) as [s3|] eqn:E3; [|done].
  apply strip_prefix_app in E3 as ->.
  destruct (match_sender s3) as [[[s0 m] r]|] eqn:E4; [|done].
  inversion H; subst.
  apply match_sender_sound in E4 as (-> & ? & ? & ?). done.
Qed.

(** ** The scan *)

Lemma scan_skip {py : Platform} x r : scan (length x) (x ++ r) = scan 0 r.
Proof. induction x as [|c x IH]; [done|]. simpl. apply IH. Qed.

(** [findall] reads one match and goes on after it, or moves on by one
    character. *)
Lemma findall_unfold {py : Platform} s :
  findall s =
    match s with
    | [] => []
    | _ :: s' =>
        match match_here s with
        | Some (ts, sender, msg, rest) => (ts, sender, msg) :: findall rest
        | None => findall s'
        end
    end.
Proof.
  unfold findall. destruct s as [|c s]; [done|].
  cbn [scan]. destruct (match_here (c :: s)) as [[[[ts sd] m] r]|] eqn:E; [|done].
  apply match_here_sound in E as (E & _).
  assert (s = (ts ++ txt "] " ++ sd ++ txt ": " ++ m) ++ r) as ->.
  { rewrite <- !app_assoc. by injection E. }
  f_equal. rewrite length_app, Nat.add_sub. apply scan_skip.
Qed.

(** Matches do not cross line ends: [findall] works line by line. *)
Lemma findall_newline {py : Platform} x y :
  findall (x ++ newline :: y) = findall x ++ findall y.
Proof.
  remember (length x) as n eqn:Hn. revert x Hn.
  induction n as [n IH] using lt_wf_ind. intros x ->.
  destruct x as [|c x].
  - rewrite app_nil_l, (findall_unfold (newline :: y)). reflexivity.
  - rewrite (findall_unfold ((c :: x) ++ _)), (findall_unfold (c :: x)).
    rewrite <- app_comm_cons, app_comm_cons, match_here_newline.
    destruct (match_here (c :: x)) as [[[[ts sd] m] r]|] eqn:E;
      cbn [fmap option_fmap option_map].
    + rewrite <- app_comm_cons. f_equal.
      apply (IH (length r)); [|done].
      apply match_here_sound in E as (E & _).
      rewrite E, !length_app. unfold txt. cbn. lia.
    + apply (IH (length x)); [cbn [length]; lia|done].
Qed.

Lemma findall_line_start {py : Platform} pre s :
  line_start pre -> findall (pre ++ s) = findall pre ++ findall s.
Proof.
  intros [->|[pre' ->]]; [done|].
  rewrite <- app_assoc. cbn [app].
  by rewrite !findall_newline, app_nil_r.
Qed.

Lemma forallb_app_r {A} (p : A -> bool) (a b : list A) :
  forallb p (a ++ b) = true -> forallb p b = true.
Proof. rewrite forallb_app. by intros [_ ?]%andb_true_iff. Qed.

(** ** Records *)


(** The lists the loop starts from stay in front of what it appends. *)
Lemma parse_matches_acc {py : Platform} matches msgs calls :
  parse_matches matches msgs calls =
    try r <- parse_matches matches [] [];
    Ok (msgs ++ r.1, calls ++ r.2).
Proof.
  revert msgs calls.
  induction matches as [|[[d s] m] matches IH]; intros msgs calls;
    cbn [parse_matches bind app].
  - by rewrite !app_nil_r.
  - destruct (strptime d) as [dt|e]; cbn [bind]; [|done].
    destruct (is_call m).
    + rewrite IH, (IH [] [_]).
      destruct (parse_matches matches [] []) as [[a b]|e]; cbn [bind]; [|done].
      cbn. by rewrite <- app_assoc.
    + rewrite IH, (IH [_] []).
      destruct (parse_matches matches [] []) as [[a b]|e]; cbn [bind]; [|done].
      cbn. by rewrite <- app_assoc.
Qed.

(** One turn of the loop, seen from the front. *)
Lemma parse_matches_cons {py : Platform} d s m matches :
  parse_matches ((d, s, m) :: matches) [] [] =
    try dt <- strptime d;
    try r <- parse_matches matches [] [];
    Ok (if is_call m
        then (r.1, mk_call dt s (call_duration m) (call_type_of m) :: r.2)
        else (mk_message dt s m :: r.1, r.2)).
Proof.
  cbn [parse_matches]. destruct (strptime d) as [dt|e]; cbn [bind]; [|done].
  destruct (is_call m); rewrite parse_matches_acc;
    by destruct (parse_matches matches [] []) as [[a b]|e].
Qed.


Lemma parse_matches_ok {py : Platform} matches msgs calls :
  parse_matches matches [] [] = Ok (msgs, calls) ->
  Forall2 message_of
    (List.filter (fun g => negb (is_call (body_of g))) matches) msgs /\
  Forall2 call_of (List.filter (fun g => is_call (body_of g)) matches) calls /\
  length msgs + length calls = length matches.
Proof.
  revert msgs calls.
  induction matches as [|[[d s] m] matches IH]; intros msgs calls H.
  - inversion H. repeat split; constructor.
  - rewrite parse_matches_cons in H.
    destruct (strptime d) as [dt|e] eqn:Ed; cbn [bind] in H; [|done].
    destruct (parse_matches matches [] []) as [[a b]|e]; cbn [bind] in H;
      [|done].
    destruct (IH a b eq_refl) as (Ha & Hb & Hlen).
    cbn [List.filter body_of snd negb].
    destruct (is_call m) eqn:Em; inversion H; subst; cbn [negb fst snd].
    + repeat split; [done| |cbn [length]; lia].
      constructor; [|done]. by repeat split.
    + repeat split; [|done|cbn [length]; lia].
      constructor; [|done]. by repeat split.
Qed.


(** Every match has its record when [parse_chat] returns. *)
Lemma match_has_record {py : Platform} content msgs calls g :
  parse_chat content = Ok (msgs, calls) -> In g (findall content) ->
  if is_call (body_of g)
  then exists c, In c calls /\ call_of g c
  else exists m, In m msgs /\ message_of g m.
Proof.
  intros Hparse Hin. apply parse_matches_ok in Hparse as (Hm & Hc & _).
  destruct (is_call (body_of g)) eqn:Eg.
  - assert (In g (List.filter (fun g => is_call (body_of g)) (findall content)))
      as Hg by (by apply filter_In).
    apply list_elem_of_In, list_elem_of_lookup in Hg as [i Hi].
    destruct (Forall2_lookup_l _ _ _ _ _ Hc Hi) as (c & Hci & Hof).
    exists c. split; [|done].
    apply list_elem_of_In, list_elem_of_lookup. eauto.
  - assert (In g (List.filter (fun g => negb (is_call (body_of g)))
                              (findall content)))
      as Hg by (apply filter_In; by rewrite Eg).
    apply list_elem_of_In, list_elem_of_lookup in Hg as [i Hi].
    destruct (Forall2_lookup_l _ _ _ _ _ Hm Hi) as (m & Hmi & Hof).
    exists m. split; [|done].
    apply list_elem_of_In, list_elem_of_lookup. eauto.
Qed.

(** C5. In a line [[DD/MM/YYYY, HH:MM:SS] sender: body], taken anywhere in
    the text, the pattern gives one match whose second group is the
    shortest non-empty text after the bracket and space that is followed by
    [": "] and a non-empty rest of line, and whose third group is
    everything after that delimiter up to the end of the line.  A sender
    with no [": "] after its first character is therefore taken whole, and
    the body is never split at a [": "] of its own.  The record that
    [parse_chat] returns for the line has this sender, and as a message
    this body. *)
Theorem sender_is_shortest_prefix {py : Platform} (pre ts sender' msg' post : text) :
  line_start pre ->
  match_tokens stamp ts = Some (ts, []) ->
  line_text sender' -> line_text msg' -> ends_run is_dot post ->
  exists sender msg,
    findall (pre ++ txt "[" ++ ts ++ txt "] "
                 ++ sender' ++ txt ": " ++ msg' ++ post)
      = findall pre ++ (ts, sender, msg) :: findall post /\
    sender ++ txt ": " ++ msg = sender' ++ txt ": " ++ msg' /\
    sender <> [] /\
    (forall s m, s <> [] -> m <> [] ->
                 s ++ txt ": " ++ m = sender' ++ txt ": " ++ msg' ->
                 length sender <= length s) /\
    (~ occurs (txt ": ") (tail sender') -> sender = sender' /\ msg = msg') /\
    (forall msgs calls,
        parse_chat (pre ++ txt "[" ++ ts ++ txt "] "
                        ++ sender' ++ txt ": " ++ msg' ++ post)
          = Ok (msgs, calls) ->
        if is_call msg
        then exists c, In c calls /\ c_initiator c = sender
        else exists m, In m msgs /\ m_sender m = sender /\ m_message m = msg).
Proof.
  intros Hpre Hts Hs Hm Hpost.
  destruct (match_sender_complete sender' msg' post Hs Hm Hpost)
    as (sender & msg & Hmatch & Hline).
  pose proof (match_sender_sound _ _ _ _ Hmatch) as (_ & [Hs0 _] & _).
  assert (Hshort : forall s m, s <> [] -> m <> [] ->
                     s ++ txt ": " ++ m = sender' ++ txt ": " ++ msg' ->
                     length sender <= length s).
  { intros s m Hs1 Hm1 E.
    apply (match_sender_shortest _ _ _ _ s m post Hmatch); try done.
    - split; [done|].
      assert (forallb is_dot (s ++ txt ": " ++ m) = true) as Hall.
      { rewrite E. destruct Hs as [_ Hs], Hm as [_ Hm].
        by rewrite !forallb_app, Hs, Hm. }
      by do 2 apply forallb_app_r in Hall.
    - transitivity ((sender' ++ txt ": " ++ msg') ++ post).
      + by rewrite <- !app_assoc.
      + rewrite <- E. by rewrite <- !app_assoc. }
  assert (findall (pre ++ txt "[" ++ ts ++ txt "] "
                       ++ sender' ++ txt ": " ++ msg' ++ post)
            = findall pre ++ (ts, sender, msg) :: findall post) as Hfind.
  { rewrite findall_line_start by done. f_equal.
    rewrite findall_unfold.
    change (txt "[" ++ ?x) with (ch "[" :: x).
    change (ch "[" :: ?x) with (txt "[" ++ x) at 2.
    rewrite match_here_line by done. rewrite Hmatch. reflexivity. }
  exists sender, msg.
  split; [done|split; [done|split; [done|split; [done|split]]]].
  - intros Hno. apply (first_delimiter sender msg sender' msg'); try done.
    apply (Hshort sender' msg'); by destruct Hs, Hm.
  - intros msgs calls Hparse.
    pose proof (match_has_record _ _ _ (ts, sender, msg) Hparse) as Hrec.
    rewrite Hfind in Hrec. cbn [body_of snd] in Hrec.
    destruct (is_call msg).
    + destruct Hrec as (c & Hc & _ & Hi & _); [|by exists c].
      apply in_app_iff. right. by left.
    + destruct Hrec as (m & Hm' & _ & Hsm & Hmm); [|by exists m].
      apply in_app_iff. right. by left.
Qed.

Lemma sender_is_shortest_prefix_witness :
  findall (txt "[01/01/2024, 10:00:00] Alice: re: at 5: ok")
    = [(stamp0, txt "Alice", txt "re: at 5: ok")].
Proof.
  destruct (sender_is_shortest_prefix [] stamp0 (txt "Alice")
              (txt "re: at 5: ok") [])
    as (sender & msg & Hfind & _ & _ & _ & Hwhole & _).
  - by left.
  - reflexivity.
  - by split.
  - by split.
  - exact I.
  - destruct Hwhole as [-> ->].
    + apply contains_false. reflexivity.
    + exact Hfind.
Defined.




(** C10, as stated, fails: the line below matches the pattern and its body
    contains "Video call", but it is dated the 32nd and no record at all is
    emitted for it. *)
Lemma matched_line_without_record :
  findall chat_bad_call =
    [(txt "32/01/2024, 10:00:00", txt "Bob", txt "Video call")] /\
  is_call (txt "Video call") = true /\
  parse_chat chat_bad_call = Raise ValueError /\
  ~ (exists msgs calls,
        parse_chat chat_bad_call = Ok (msgs, calls) /\
        length msgs + length calls = 1).
Proof.
  split; [|split; [|split]]; try (vm_compute; reflexivity).
  intros (msgs & calls & H & _). vm_compute in H. discriminate H.
Qed.

Lemma is_call_occurs (body : text) :
  is_call body = true <->
  occurs (txt "Video call") body \/ occurs (txt "Missed video call") body.
Proof.
  unfold is_call. by rewrite orb_true_iff, !contains_occurs.
Qed.

(** C10, amended.  When [parse_chat] returns (every matched timestamp
    parses), every matched line is emitted as exactly one record, in order:
    a call record when its body contains "Video call" or "Missed video
    call" with exactly these letters, a message record when not.  A body
    with only "video call" or "missed video call" is a message. *)
Theorem classification_is_case_sensitive {py : Platform} :
  (forall content msgs calls,
      parse_chat content = Ok (msgs, calls) ->
      Forall2 message_of
        (List.filter (fun g => negb (is_call (body_of g))) (findall content))
        msgs /\
      Forall2 call_of
        (List.filter (fun g => is_call (body_of g)) (findall content)) calls /\
      length msgs + length calls = length (findall content)) /\
  (forall body,
      is_call body = true <->
      occurs (txt "Video call") body \/
      occurs (txt "Missed video call") body) /\
  is_call (txt "video call") = false /\
  is_call (txt "missed video call") = false /\
  is_call (txt "Missed Video Call") = false /\
  is_call (txt "Video call") = true /\
  is_call (txt "Missed video call") = true /\
  parse_chat (txt "[01/01/2024, 10:00:00] Bob: missed video call 2 hr")
    = Ok ([mk_message ts0 (txt "Bob") (txt "missed video call 2 hr")], []).
Proof.
  split; [|split; [|repeat split; vm_compute; reflexivity]].
  - intros content msgs calls. apply parse_matches_ok.
  - apply is_call_occurs.
Qed.

Lemma parse_chat_good {py : Platform} :
  parse_chat chat_good = Ok (chat_good_msgs, chat_good_calls).
Proof. vm_compute. reflexivity. Qed.

Lemma classification_is_case_sensitive_witness :
  parse_chat chat_good = Ok (chat_good_msgs, chat_good_calls) /\
  Forall2 message_of
    (List.filter (fun g => negb (is_call (body_of g))) (findall chat_good))
    chat_good_msgs /\
  Forall2 call_of
    (List.filter (fun g => is_call (body_of g)) (findall chat_good))
    chat_good_calls /\
  length chat_good_msgs + length chat_good_calls = length (findall chat_good).
Proof.
  split; [exact parse_chat_good|].
  apply (proj1 classification_is_case_sensitive chat_good).
  vm_compute. reflexivity.
Defined.

(** ** The calendar *)

Section Calendar.
Local Open Scope Z_scope.

Lemma month_cases m : 1 <= m <= 12 ->
  m = 1 \/ m = 2 \/ m = 3 \/ m = 4 \/ m = 5 \/ m = 6 \/
  m = 7 \/ m = 8 \/ m = 9 \/ m = 10 \/ m = 11 \/ m = 12.
Proof. lia. Qed.

Ltac each_month m H :=
  destruct (month_cases m H) as [->|[->|[->|[->|[->|[->|[->|[->|[->|[->|[->| ->]]]]]]]]]]].

(** A month ends before the next one starts. *)
Lemma days_before_month_next y m :
  1 <= m <= 11 ->
  days_before_month y (m + 1) = days_before_month y m + days_in_month y m.
Proof.
  intros H. assert (1 <= m <= 12) as H' by lia.
  each_month m H'; try lia;
    unfold days_before_month, days_in_month; cbn -[is_leap];
    destruct (is_leap y); reflexivity.
Qed.

Lemma days_in_month_bounds y m : 28 <= days_in_month y m <= 31.
Proof.
  unfold days_in_month.
  destruct (m =? 2); [destruct (is_leap y); lia|].
  destruct (_ || _)%bool; lia.
Qed.

Lemma days_before_month_mono y m m' :
  1 <= m -> m < m' -> m' <= 12 ->
  days_before_month y m + days_in_month y m <= days_before_month y m'.
Proof.
  intros H1 Hlt H12.
  replace m' with (m + 1 + Z.of_nat (Z.to_nat (m' - m - 1))) in * by lia.
  induction (Z.to_nat (m' - m - 1)) as [|n IH].
  - rewrite Z.add_0_r, days_before_month_next; lia.
  - rewrite Nat2Z.inj_succ in *.
    replace (m + 1 + Z.succ (Z.of_nat n)) with (m + 1 + Z.of_nat n + 1) in * by lia.
    rewrite days_before_month_next by lia.
    pose proof (days_in_month_bounds y (m + 1 + Z.of_nat n)). lia.
Qed.

Lemma days_before_year_next y :
  days_before_year (y + 1) = days_before_year y + days_in_year y.
Proof.
  unfold days_before_year, days_in_year, is_leap.
  replace (y + 1 - 1) with y by lia.
  destruct (Z.eqb_spec (y mod 4) 0), (Z.eqb_spec (y mod 100) 0),
    (Z.eqb_spec (y mod 400) 0); cbn [andb orb negb];
    Z.div_mod_to_equations; lia.
Qed.

Lemma days_before_year_mono y y' :
  y <= y' -> days_before_year y <= days_before_year y'.
Proof.
  intros H. unfold days_before_year. Z.div_mod_to_equations. lia.
Qed.

Lemma year_end y m d :
  valid_date y m d -> 1 <= days_before_month y m + d <= days_in_year y.
Proof.
  intros (Hy & Hm & Hd).
  assert (days_before_month y 12 + days_in_month y 12 = days_in_year y) as E.
  { unfold days_in_year, days_before_month, days_in_month.
    cbn -[is_leap]. destruct (is_leap y); reflexivity. }
  assert (0 <= days_before_month y m).
  { destruct (decide (m = 1)) as [->|]; [by vm_compute|].
    pose proof (days_before_month_mono y 1 m).
    pose proof (days_in_month_bounds y 1).
    assert (days_before_month y 1 = 0) by reflexivity. lia. }
  destruct (decide (m = 12)) as [->|]; [lia|].
  pose proof (days_before_month_mono y m 12).
  pose proof (days_in_month_bounds y 12). lia.
Qed.

(** Later dates have larger ordinals, so distinct valid dates have distinct
    ordinals and the order of dates is the order of their ordinals. *)
Lemma ymd2ord_lt y m d y' m' d' :
  valid_date y m d -> valid_date y' m' d' ->
  y < y' \/ (y = y' /\ (m < m' \/ (m = m' /\ d < d'))) ->
  ymd2ord y m d < ymd2ord y' m' d'.
Proof.
  intros Hv Hv' Hlt. unfold ymd2ord.
  pose proof (year_end _ _ _ Hv). pose proof (year_end _ _ _ Hv').
  destruct Hlt as [Hy|[<- [Hm|[<- Hd]]]].
  - pose proof (days_before_year_next y).
    pose proof (days_before_year_mono (y + 1) y'). lia.
  - destruct Hv as (_ & ? & ?), Hv' as (_ & ? & ?).
    pose proof (days_before_month_mono y m m'). lia.
  - lia.
Qed.

Lemma ymd2ord_inj y m d y' m' d' :
  valid_date y m d -> valid_date y' m' d' ->
  ymd2ord y m d = ymd2ord y' m' d' -> y = y' /\ m = m' /\ d = d'.
Proof.
  intros Hv Hv' E.
  destruct (Z.lt_trichotomy y y') as [?|[<-|?]];
    [pose proof (ymd2ord_lt _ _ _ _ _ _ Hv Hv'); lia| |
     pose proof (ymd2ord_lt _ _ _ _ _ _ Hv' Hv); lia].
  destruct (Z.lt_trichotomy m m') as [?|[<-|?]];
    [pose proof (ymd2ord_lt _ _ _ _ _ _ Hv Hv'); lia| |
     pose proof (ymd2ord_lt _ _ _ _ _ _ Hv' Hv); lia].
  destruct (Z.lt_trichotomy d d') as [?|[<-|?]];
    [pose proof (ymd2ord_lt _ _ _ _ _ _ Hv Hv'); lia|done|
     pose proof (ymd2ord_lt _ _ _ _ _ _ Hv' Hv); lia].
Qed.

(** Two parsed timestamps fall on the same calendar day exactly when their
    ordinals agree: grouping by ordinal is grouping by date. *)
Lemma date_of_same_day dt dt' :
  valid dt = true -> valid dt' = true ->
  date_of dt = date_of dt' <->
  year dt = year dt' /\ month dt = month dt' /\ day dt = day dt'.
Proof.
  intros Hv Hv'. unfold date_of. split.
  - apply ymd2ord_inj; unfold valid_date.
    + unfold valid in Hv. repeat (apply andb_true_iff in Hv as [Hv ?]). lia.
    + unfold valid in Hv'. repeat (apply andb_true_iff in Hv' as [Hv' ?]). lia.
  - by intros (-> & -> & ->).
Qed.

End Calendar.

(** ** Row counts in key order *)

Lemma bump_keys k k' rows :
  In k' (map fst (bump k rows)) <-> k' = k \/ In k' (map fst rows).
Proof.
  induction rows as [|[k0 n] rows IH]; cbn [bump map fst In].
  - firstorder (subst; eauto; congruence).
  - destruct (Z.ltb_spec k k0); [cbn [map fst In]; firstorder (subst; eauto; congruence)|].
    destruct (Z.eqb_spec k k0) as [->|]; cbn [map fst In]; [firstorder (subst; eauto; congruence)|].
    rewrite IH. firstorder (subst; eauto; congruence).
Qed.

Lemma bump_increasing k rows :
  increasing (map fst rows) -> increasing (map fst (bump k rows)).
Proof.
  unfold increasing.
  induction rows as [|[k0 n] rows IH]; cbn [bump map fst]; intros Hs.
  - repeat constructor.
  - apply StronglySorted_inv in Hs as [Hs Hall].
    destruct (Z.ltb_spec k k0).
    + cbn [map fst]. constructor; [by constructor|].
      constructor; [done|]. eapply Forall_impl; [exact Hall|].
      intros; cbn in *; lia.
    + destruct (Z.eqb_spec k k0) as [->|]; cbn [map fst].
      * by constructor.
      * constructor; [by apply IH|].
        apply List.Forall_forall. intros k' [->|Hin]%bump_keys; [lia|].
        rewrite List.Forall_forall in Hall. by apply Hall.
Qed.

Lemma lookup_row_None k rows :
  ~ In k (map fst rows) -> lookup_row k rows = None.
Proof.
  induction rows as [|[k0 n] rows IH]; cbn [lookup_row map fst In]; [done|].
  intros Hno. destruct (Z.eqb_spec k k0) as [->|]; [|apply IH]; firstorder (subst; eauto; congruence).
Qed.

Lemma lookup_row_In k n rows :
  increasing (map fst rows) ->
  In (k, n) rows <-> lookup_row k rows = Some n.
Proof.
  unfold increasing.
  induction rows as [|[k0 n0] rows IH]; cbn [lookup_row map fst In];
    intros Hs; [firstorder (subst; eauto; congruence)|].
  apply StronglySorted_inv in Hs as [Hs Hall]. rewrite List.Forall_forall in Hall.
  destruct (Z.eqb_spec k k0) as [->|Hne].
  - split; [|firstorder (subst; eauto; congruence)]. intros [?|Hin]; [firstorder (subst; eauto; congruence)|].
    apply (in_map fst), Hall in Hin. cbn in Hin. lia.
  - rewrite <- IH by done. firstorder (subst; eauto; congruence).
Qed.

Lemma lookup_bump k k' rows :
  increasing (map fst rows) ->
  lookup_row k (bump k' rows) =
    if (k =? k')%Z then Some (S (default 0 (lookup_row k rows)))
    else lookup_row k rows.
Proof.
  unfold increasing.
  induction rows as [|[k0 n] rows IH]; cbn [bump lookup_row map fst];
    intros Hs; [by destruct (k =? k')%Z|].
  apply StronglySorted_inv in Hs as [Hs Hall]. rewrite List.Forall_forall in Hall.
  destruct (Z.ltb_spec k' k0).
  - cbn [lookup_row]. destruct (Z.eqb_spec k k') as [->|]; [|done].
    destruct (Z.eqb_spec k' k0); [lia|].
    rewrite lookup_row_None; [done|]. intros Hin%Hall. lia.
  - destruct (Z.eqb_spec k' k0) as [->|]; cbn [lookup_row].
    + by destruct (Z.eqb_spec k k0).
    + rewrite IH by done.
      destruct (Z.eqb_spec k k0) as [->|]; [|done].
      by destruct (Z.eqb_spec k0 k').
Qed.

Lemma size_by_key_snoc keys k :
  size_by_key (keys ++ [k]) = bump k (size_by_key keys).
Proof. unfold size_by_key. by rewrite fold_left_app. Qed.

Lemma size_by_key_increasing keys : increasing (map fst (size_by_key keys)).
Proof.
  induction keys as [|k keys IH] using rev_ind; [constructor|].
  rewrite size_by_key_snoc. by apply bump_increasing.
Qed.

Lemma size_by_key_keys keys k :
  In k (map fst (size_by_key keys)) <-> In k keys.
Proof.
  induction keys as [|k' keys IH] using rev_ind; [done|].
  rewrite size_by_key_snoc, bump_keys, IH, in_app_iff. cbn. firstorder (subst; eauto; congruence).
Qed.

Lemma occurrences_snoc k keys k' :
  occurrences k (keys ++ [k']) =
    if (k =? k')%Z then S (occurrences k keys) else occurrences k keys.
Proof.
  unfold occurrences. rewrite List.filter_app, length_app. cbn.
  destruct (k =? k')%Z; cbn; lia.
Qed.

Lemma size_by_key_lookup keys k :
  lookup_row k (size_by_key keys) =
    match occurrences k keys with
    | O => None
    | n => Some n
    end.
Proof.
  induction keys as [|k' keys IH] using rev_ind; [done|].
  rewrite size_by_key_snoc, lookup_bump, occurrences_snoc, IH
    by apply size_by_key_increasing.
  destruct (k =? k')%Z; [|done]. by destruct (occurrences k keys).
Qed.

(** Every row counts the occurrences of its key, and none counts zero. *)
Lemma size_by_key_rows keys k n :
  In (k, n) (size_by_key keys) <-> n = occurrences k keys /\ 1 <= n.
Proof.
  rewrite lookup_row_In, size_by_key_lookup by apply size_by_key_increasing.
  destruct (occurrences k keys); split; intros H; try done.
  - lia.
  - inversion H. lia.
  - destruct H as [-> _]. done.
Qed.

(** An increasing list of integers from [a] to [b] has at most [b - a + 1]
    entries, and has that many just when it skips nothing. *)
Lemma increasing_span ks a b :
  increasing ks -> head ks = Some a -> last ks = Some b ->
  (forall k, In k ks -> (a <= k <= b)%Z) /\
  (Z.of_nat (length ks) <= b - a + 1)%Z /\
  (Z.of_nat (length ks) = (b - a + 1)%Z <->
   forall k, (a <= k <= b)%Z -> In k ks).
Proof.
  unfold increasing. revert a.
  induction ks as [|k0 ks IH]; intros a Hs Ha Hb; [done|].
  cbn in Ha. inversion Ha; subst. clear Ha.
  apply StronglySorted_inv in Hs as [Hs Hall]. rewrite List.Forall_forall in Hall.
  destruct ks as [|k1 ks].
  - cbn in Hb. inversion Hb; subst. cbn [length In].
    split; [|split; [lia|split]].
    + intros k [->|[]]; lia.
    + intros _ k Hk. left. lia.
    + intros _. lia.
  - assert (last (k1 :: ks) = Some b) as Hb' by done.
    destruct (IH k1 Hs eq_refl Hb') as (Hin & Hlen & Hfull).
    assert (a < k1)%Z as Hlt by (apply Hall; by left).
    assert (k1 <= b)%Z as Hle by (apply Hin; by left).
    change (length (a :: k1 :: ks)) with (S (length (k1 :: ks))).
    split; [|split; [lia|split]].
    + intros k [->|Hk]; [lia|]. apply Hin in Hk. lia.
    + intros Hlen' k Hk.
      assert (k1 = a + 1)%Z as -> by lia.
      destruct (decide (k = a)) as [->|]; [by left|].
      right. apply Hfull; lia.
    + intros Hall'.
      assert (k1 = a + 1)%Z as ->.
      { destruct (Hall' (a + 1)%Z) as [?|Hin']; [lia|lia|].
        apply Hin in Hin'. lia. }
      assert (Z.of_nat (length ((a + 1)%Z :: ks)) = (b - (a + 1) + 1)%Z); [|lia].
      apply Hfull. intros k Hk.
      destruct (Hall' k) as [?|?]; [lia|lia|done].
Qed.

(** ** The daily series and the hour histogram *)

Lemma head_last_rows keys :
  keys <> [] ->
  exists a b, head (map fst (size_by_key keys)) = Some a /\
              last (map fst (size_by_key keys)) = Some b.
Proof.
  intros Hne.
  assert (map fst (size_by_key keys) <> []) as Hrows.
  { destruct keys as [|k keys]; [done|]. intros E.
    assert (In k (map fst (size_by_key (k :: keys)))) as Hin
      by (apply size_by_key_keys; by left).
    by rewrite E in Hin. }
  destruct (map fst (size_by_key keys)) as [|a l] eqn:E; [done|].
  exists a. destruct (last (a :: l)) as [b|] eqn:Eb; [by exists b|].
  by apply last_None in Eb.
Qed.

(** C1, as stated, fails: with messages on 1 and 3 January only, the daily
    series has two rows, none for 2 January (so no zero count either),
    while the dates span three days. *)
Lemma daily_skips_silent_day :
  parse_chat chat_gap = Ok (chat_gap_msgs, []) /\
  daily chat_gap_msgs = [(ymd2ord 2024 1 1, 2); (ymd2ord 2024 1 3, 1)] /\
  ~ In (ymd2ord 2024 1 2) (map fst (daily chat_gap_msgs)) /\
  lookup_row (ymd2ord 2024 1 2) (daily chat_gap_msgs) <> Some 0 /\
  Z.of_nat (length (daily chat_gap_msgs))
    <> (ymd2ord 2024 1 3 - ymd2ord 2024 1 1 + 1)%Z.
Proof.
  split; [|split; [|split; [|split]]]; try (vm_compute; reflexivity).
  - vm_compute. intros [H|[H|[]]]; discriminate H.
  - vm_compute. discriminate.
  - vm_compute. discriminate.
Qed.

(** C1, amended.  The daily series has one row for each date on which a
    message was observed and none for any other day; its dates are strictly
    increasing; each row holds the number of messages of its date, never 0.
    For a non-empty message sequence it starts at the first and ends at the
    last observed date, its length is at most [(last - first).days + 1],
    and it has that length exactly when no day in between is without a
    message. *)
Theorem daily_has_observed_days_only (msgs : list message) :
  increasing (map fst (daily msgs)) /\
  (forall d, In d (map fst (daily msgs)) <-> In d (date_col msgs)) /\
  (forall d n, In (d, n) (daily msgs) <->
               n = occurrences d (date_col msgs) /\ 1 <= n) /\
  (msgs <> [] ->
   exists first_date last_date,
     head (map fst (daily msgs)) = Some first_date /\
     last (map fst (daily msgs)) = Some last_date /\
     In first_date (date_col msgs) /\ In last_date (date_col msgs) /\
     (forall d, In d (date_col msgs) -> (first_date <= d <= last_date)%Z) /\
     (Z.of_nat (length (daily msgs)) <= last_date - first_date + 1)%Z /\
     (Z.of_nat (length (daily msgs)) = (last_date - first_date + 1)%Z <->
      forall d, (first_date <= d <= last_date)%Z -> In d (date_col msgs))).
Proof.
  unfold daily. fold (date_col msgs).
  split; [apply size_by_key_increasing|].
  split; [apply size_by_key_keys|].
  split; [apply size_by_key_rows|].
  intros Hne.
  destruct (head_last_rows (date_col msgs)) as (a & b & Ha & Hb).
  { by destruct msgs. }
  destruct (increasing_span _ a b (size_by_key_increasing _) Ha Hb)
    as (Hin & Hlen & Hfull).
  rewrite length_map in Hlen, Hfull.
  exists a, b. split; [done|]. split; [done|].
  assert (In a (map fst (size_by_key (date_col msgs)))) as Hina.
  { destruct (map fst _); [done|]. inversion Ha. by left. }
  assert (In b (map fst (size_by_key (date_col msgs)))) as Hinb.
  { apply list_elem_of_In, list_elem_of_lookup.
    rewrite last_lookup in Hb. eauto. }
  split; [by apply size_by_key_keys|].
  split; [by apply size_by_key_keys|].
  split; [intros d Hd; by apply Hin, size_by_key_keys|].
  split; [done|]. rewrite Hfull.
  split; intros H d Hd.
  - by apply size_by_key_keys, H.
  - by apply size_by_key_keys, H.
Qed.

Lemma daily_has_observed_days_only_witness :
  exists first_date last_date,
    head (map fst (daily chat_gap_msgs)) = Some first_date /\
    last (map fst (daily chat_gap_msgs)) = Some last_date /\
    (Z.of_nat (length (daily chat_gap_msgs)) <= last_date - first_date + 1)%Z.
Proof.
  destruct (daily_has_observed_days_only chat_gap_msgs) as (_ & _ & _ & H).
  destruct H as (a & b & Ha & Hb & _ & _ & _ & Hlen & _); [done|].
  by exists a, b.
Defined.

Lemma strptime_valid {py : Platform} s dt : strptime s = Ok dt -> valid dt = true.
Proof.
  unfold strptime.
  destruct (match_tokens stamp s) as [[m [|c r]]|]; try done.
  destruct (forallb is_ascii s).
  - destruct (valid _) eqn:E; [|done]. intros H. by inversion H; subst.
  - destruct (strptime_wide s) as [dt'|]; [|done].
    destruct (valid dt') eqn:E; [|done]. intros H. by inversion H; subst.
Qed.

Lemma parse_chat_valid {py : Platform} content msgs calls :
  parse_chat content = Ok (msgs, calls) ->
  forall m, In m msgs -> valid (m_datetime m) = true.
Proof.
  intros H m Hm. apply parse_matches_ok in H as (Hmsgs & _ & _).
  apply list_elem_of_In, list_elem_of_lookup in Hm as [i Hi].
  destruct (Forall2_lookup_r _ _ _ _ _ Hmsgs Hi) as (g & _ & Hg & _).
  by apply strptime_valid in Hg.
Qed.

(** C9, as stated, fails: the messages of the four-day chat were all sent
    between 10:00 and 10:59 or between 22:00 and 22:59, and the histogram
    has the two buckets 10 and 22; there is no bucket for hour 0, nor 24
    buckets. *)
Lemma hours_skips_silent_hour :
  exists msgs calls,
    parse_chat chat_four_days = Ok (msgs, calls) /\
    hours msgs = [(10%Z, 6); (22%Z, 2)] /\
    ~ In 0%Z (map fst (hours msgs)) /\
    length (hours msgs) <> 24.
Proof.
  eexists _, _. split; [vm_compute; reflexivity|].
  split; [vm_compute; reflexivity|]. split.
  - vm_compute. intros [H|[H|[]]]; discriminate H.
  - vm_compute. discriminate.
Qed.

(** C9, amended.  The hour histogram of the parsed messages, all senders
    together, has one bucket for each hour of the day in which a message
    was sent and none for any other hour; its hours are strictly
    increasing and lie in 0..23, so there are at most 24 buckets; each
    bucket holds the number of messages of its hour, never 0. *)
Theorem hours_has_observed_hours_only {py : Platform} (content : text) msgs calls :
  parse_chat content = Ok (msgs, calls) ->
  increasing (map fst (hours msgs)) /\
  (forall h, In h (map fst (hours msgs)) <-> In h (hour_col msgs)) /\
  (forall h n, In (h, n) (hours msgs) <->
               n = occurrences h (hour_col msgs) /\ 1 <= n) /\
  (forall h, In h (map fst (hours msgs)) -> (0 <= h <= 23)%Z) /\
  length (hours msgs) <= 24.
Proof.
  intros Hparse. unfold hours. fold (hour_col msgs).
  split; [apply size_by_key_increasing|].
  split; [apply size_by_key_keys|].
  split; [apply size_by_key_rows|].
  assert (forall h, In h (map fst (size_by_key (hour_col msgs))) ->
                    (0 <= h <= 23)%Z) as Hrange.
  { intros h Hh. apply (proj1 (size_by_key_keys _ _)) in Hh.
    unfold hour_col in Hh. apply in_map_iff in Hh as (m & <- & Hm).
    apply (parse_chat_valid _ _ _ Hparse) in Hm.
    unfold valid in Hm. repeat (apply andb_true_iff in Hm as [Hm ?]). lia. }
  split; [done|].
  destruct msgs as [|m msgs]; [cbn; lia|].
  destruct (head_last_rows (hour_col (m :: msgs))) as (a & b & Ha & Hb);
    [done|].
  destruct (increasing_span _ a b (size_by_key_increasing _) Ha Hb)
    as (Hin & Hlen & _).
  rewrite length_map in Hlen.
  assert (0 <= a /\ b <= 23)%Z; [|lia].
  split.
  - apply Hrange. destruct (map fst _); [done|]. inversion Ha. by left.
  - apply Hrange, list_elem_of_In, list_elem_of_lookup.
    rewrite last_lookup in Hb. eauto.
Qed.

Lemma hours_has_observed_hours_only_witness :
  (forall h, In h (map fst (hours chat_gap_msgs)) -> (0 <= h <= 23)%Z) /\
  length (hours chat_gap_msgs) <= 24.
Proof.
  destruct (hours_has_observed_hours_only chat_gap chat_gap_msgs [])
    as (_ & _ & _ & H).
  - vm_compute. reflexivity.
  - exact H.
Defined.

(** ** Counts per sender *)

Lemma value_counts_snoc keys k :
  value_counts (keys ++ [k]) =
    <[k := S (default 0 (value_counts keys !! k))]> (value_counts keys).
Proof. unfold value_counts. by rewrite fold_left_app. Qed.

(** [value_counts] has an entry for the values that occur, and only those. *)
Lemma value_counts_lookup keys k :
  value_counts keys !! k =
    match rows_with k keys with
    | O => None
    | n => Some n
    end.
Proof.
  induction keys as [|k' keys IH] using rev_ind; [done|].
  rewrite value_counts_snoc. unfold rows_with in *.
  rewrite List.filter_app, length_app. cbn [List.filter].
  destruct (decide (k' = k)) as [->|Hne].
  - rewrite lookup_insert_eq, IH, bool_decide_eq_true_2 by done.
    cbn [length]. rewrite Nat.add_1_r.
    by destruct (length _).
  - rewrite lookup_insert_ne, IH, bool_decide_eq_false_2 by done.
    cbn [length]. by rewrite Nat.add_0_r.
Qed.

(** C6 on the code.  Alice sends an image and Bob a text: Bob is in the
    message counts but has no row in the image counts (not a row with 0),
    and nobody has a row in the sticker counts. *)
Lemma media_counts_omit_senders :
  parse_chat chat_image = Ok (chat_image_msgs, []) /\
  msg_count chat_image_msgs !! txt "Bob" = Some 1 /\
  img_count chat_image_msgs !! txt "Alice" = Some 1 /\
  img_count chat_image_msgs !! txt "Bob" = None /\
  stk_count chat_image_msgs = ∅.
Proof. repeat split; vm_compute; reflexivity. Qed.

(** ** Response times *)

Lemma rows_of_snoc {V} k (rows : list (text * V)) k' v :
  rows_of k (rows ++ [(k', v)]) =
    if decide (k' = k) then rows_of k rows ++ [v] else rows_of k rows.
Proof.
  unfold rows_of. rewrite List.filter_app, map_app. cbn.
  case_bool_decide; case_decide; try done. by rewrite app_nil_r.
Qed.

Lemma group_rows_lookup {V} (rows : list (text * V)) k :
  group_rows rows !! k =
    match rows_of k rows with
    | [] => None
    | vs => Some vs
    end.
Proof.
  induction rows as [|[k' v] rows IH] using rev_ind; [done|].
  unfold group_rows in *. rewrite fold_left_app. cbn [fold_left].
  rewrite rows_of_snoc. case_decide as Hk.
  - subst k'. rewrite lookup_insert_eq, IH.
    by destruct (rows_of k rows).
  - by rewrite lookup_insert_ne.
Qed.

Lemma groupby_diff_rows prev rows k :
  rows_of k (zip (map fst rows) (groupby_diff prev rows)) =
    match prev !! k with
    | Some p => map Some (gaps (p :: rows_of k rows))
    | None =>
        match rows_of k rows with
        | [] => []
        | ts => None :: map Some (gaps ts)
        end
    end.
Proof.
  revert prev. induction rows as [|[k' v] rows IH]; intros prev.
  - cbn. by destruct (prev !! k).
  - cbn [map fst groupby_diff zip zip_with]. unfold rows_of in *.
    cbn [List.filter fst]. case_bool_decide as Hk.
    + subst k'. cbn [map snd]. rewrite IH, lookup_insert_eq.
      by destruct (prev !! k).
    + by rewrite IH, lookup_insert_ne.
Qed.

Lemma rows_of_times sender msgs :
  rows_of sender (map (fun m => (m_sender m, seconds_of (m_datetime m))) msgs)
    = times_of sender msgs.
Proof.
  unfold rows_of, times_of. induction msgs as [|m msgs IH]; [done|].
  cbn. case_bool_decide; cbn; by rewrite IH.
Qed.

Lemma rows_of_zip_map {A B} (f : A -> B) k (ks : list text) (vs : list A) :
  rows_of k (zip ks (map f vs)) = map f (rows_of k (zip ks vs)).
Proof.
  unfold rows_of. revert vs.
  induction ks as [|k' ks IH]; intros [|v vs]; try done.
  cbn. case_bool_decide; cbn; by rewrite IH.
Qed.

(** The [resp_min] values of one sender: a missing value for the first
    message, then the gaps to the sender's previous message, in minutes. *)
Lemma resp_min_rows sender msgs :
  rows_of sender (zip (sender_col msgs) (resp_min msgs)) =
    match times_of sender msgs with
    | [] => []
    | ts => None :: map Some (map minutes (gaps ts))
    end.
Proof.
  unfold resp_min, sender_col.
  rewrite rows_of_zip_map.
  replace (map m_sender msgs)
    with (map fst (map (fun m => (m_sender m, seconds_of (m_datetime m))) msgs))
    by (rewrite map_map; done).
  rewrite groupby_diff_rows, lookup_empty, rows_of_times.
  destruct (times_of sender msgs); [done|].
  cbn [map fmap option_fmap option_map]. f_equal. by rewrite !map_map.
Qed.

Lemma mean_skipna_gaps (qs : list Q) :
  mean_skipna (None :: map Some qs) =
    match qs with
    | [] => None
    | _ => Some (mean qs)
    end.
Proof.
  unfold mean_skipna. cbn [omap list_omap id].
  assert (omap id (map Some qs) = qs) as ->.
  { induction qs as [|q qs IH]; [done|]. cbn. by rewrite IH. }
  by destruct qs.
Qed.

Lemma gaps_length ts : length (gaps ts) = length ts - 1.
Proof.
  induction ts as [|t0 [|t1 ts] IH]; [done|done|].
  cbn [gaps length] in *. lia.
Qed.

Lemma resp_lookup msgs sender :
  resp msgs !! sender =
    match gaps (times_of sender msgs) with
    | [] => None
    | gs => Some (mean (map minutes gs))
    end.
Proof.
  unfold resp. rewrite lookup_omap, group_rows_lookup, resp_min_rows.
  destruct (times_of sender msgs) as [|t0 ts]; [done|].
  cbn [mbind option_bind]. rewrite mean_skipna_gaps.
  by destruct (gaps (t0 :: ts)).
Qed.

Lemma Qsum_minutes gs :
  (Qsum (map minutes gs) == inject_Z (Zsum gs) / 60)%Q.
Proof.
  induction gs as [|g gs IH]; [reflexivity|].
  cbn [map Qsum fold_right Zsum foldr].
  fold (Qsum (map minutes gs)). fold (Zsum gs).
  rewrite IH, inject_Z_plus. unfold minutes. field.
Qed.

(** C8. The response-latency result has, for each sender with at least two
    messages, the arithmetic mean of the gaps, in minutes, between each of
    the sender's messages and the same sender's previous message, whatever
    other senders wrote in between: the sum of these gaps, in seconds,
    divided by 60 and by their number, which is the number of the sender's
    messages minus one.  A sender with fewer than two messages has no
    entry; with exactly two messages the value is the one gap, with three
    it is half the sum of the two gaps. *)
Theorem resp_is_mean_own_gap (msgs : list message) (sender : text) :
  (2 <= length (times_of sender msgs) ->
   length (gaps (times_of sender msgs)) = length (times_of sender msgs) - 1 /\
   exists q,
     resp msgs !! sender = Some q /\
     (q == inject_Z (Zsum (gaps (times_of sender msgs))) / 60
           / inject_Z (Z.of_nat (length (gaps (times_of sender msgs)))))%Q) /\
  (length (times_of sender msgs) < 2 -> resp msgs !! sender = None) /\
  (forall t0 t1,
      times_of sender msgs = [t0; t1] ->
      exists q, resp msgs !! sender = Some q /\
                (q == inject_Z (t1 - t0) / 60)%Q) /\
  (forall t0 t1 t2,
      times_of sender msgs = [t0; t1; t2] ->
      exists q, resp msgs !! sender = Some q /\
                (q == (inject_Z (t1 - t0) / 60 + inject_Z (t2 - t1) / 60) / 2)%Q).
Proof.
  pose proof (resp_lookup msgs sender) as Hresp.
  pose proof (gaps_length (times_of sender msgs)) as Hlen.
  split; [|split; [|split]].
  - intros Hge. split; [done|].
    destruct (gaps (times_of sender msgs)) as [|g gs] eqn:E;
      [cbn in Hlen; lia|].
    eexists. split; [exact Hresp|].
    unfold mean. by rewrite Qsum_minutes, length_map.
  - intros Hlt. rewrite Hresp.
    destruct (gaps (times_of sender msgs)); [done|cbn in Hlen; lia].
  - intros t0 t1 E. rewrite Hresp, E. eexists. split; [done|].
    unfold mean, minutes. cbn. field.
  - intros t0 t1 t2 E. rewrite Hresp, E. eexists. split; [done|].
    unfold mean, minutes. cbn. field.
Qed.

Lemma resp_is_mean_own_gap_witness :
  (exists q, resp chat_replies_msgs !! txt "Alice" = Some q /\ (q == 20)%Q) /\
  (exists q, resp chat_replies_msgs !! txt "Bob" = Some q /\ (q == 35)%Q) /\
  resp chat_replies_msgs !! txt "Carol" = None.
Proof.
  destruct (resp_is_mean_own_gap chat_replies_msgs (txt "Alice"))
    as (Hmean & _ & _ & _).
  destruct (resp_is_mean_own_gap chat_replies_msgs (txt "Bob"))
    as (_ & _ & Htwo & _).
  destruct (resp_is_mean_own_gap chat_replies_msgs (txt "Carol"))
    as (_ & Hone & _ & _).
  split; [|split].
  - destruct Hmean as (_ & q & Hq & Eq); [vm_compute; lia|].
    exists q. split; [done|]. rewrite Eq. vm_compute. reflexivity.
  - destruct (Htwo (seconds_of (mk_datetime 2024 1 1 10 5 0))
                   (seconds_of (mk_datetime 2024 1 1 10 40 0)))
      as (q & Hq & Eq); [vm_compute; reflexivity|].
    exists q. split; [done|]. rewrite Eq. vm_compute. reflexivity.
  - apply Hone. vm_compute. lia.
Defined.

(** ** The forecast stage and the pipeline *)

Section PipelineFacts.

Context {py : Platform}.
Variable V : Type.
Variable auto_arima : list nat -> result (nat * nat * nat).
Variable arima_forecast : nat * nat * nat -> list nat -> nat -> result (list V).
Variable is_emoji : char -> bool.
Variable spanish_sw : text -> bool.
Variable render : output V -> result unit.

Let forecast_ := forecast V auto_arima arima_forecast.
Let stages_ := stages V auto_arima arima_forecast is_emoji spanish_sw render.
Let analyze_chat_ :=
  analyze_chat V auto_arima arima_forecast is_emoji spanish_sw render.

Lemma max_ordinal_value : max_ordinal = 3652059%Z.
Proof. reflexivity. Qed.




(** After the last day of the calendar there is no day to forecast. *)
Lemma forecast_at_calendar_end d order fcast :
  auto_arima (map snd d) = Ok order ->
  arima_forecast order (map snd d) 30 = Ok fcast ->
  last (map fst d) = Some max_ordinal ->
  forecast_ d = Raise OverflowError.
Proof.
  intros Ho Hf Hk. unfold forecast_, forecast, last_date, next_day.
  rewrite Ho. cbn [bind]. rewrite Hf. cbn [bind]. rewrite Hk. cbn [bind].
  by rewrite Z.ltb_irrefl.
Qed.

Lemma analyze_chat_parsed content msgs calls :
  parse_chat content = Ok (msgs, calls) ->
  analyze_chat_ content = stages_ msgs calls.
Proof.
  intros H. unfold analyze_chat_, stages_, analyze_chat. rewrite H.
  cbn [lift and_then]. by destruct (stages _ _ _ _ _ _ msgs calls).
Qed.




Local Notation "'do' x <- p ; k" := (and_then V p (fun x => k))
  (at level 10, x pattern, p at level 100, k at level 200).

(** The stages after the forecast. *)
Let later_stages (msgs : list message) (calls : list call) : run V unit :=
  do _ <- match calls with
          | [] => lift V (Ok tt)
          | _ => emit V render (CallHeatmap (heat calls))
          end;
  do _ <- lift V (column calls);
  do _ <- emit V render (CallStats (call_stats calls));
  do _ <- emit V render (WordCloud (corpus spanish_sw msgs));
  do _ <- analyze_message_lengths_by_sender V render msgs;
  do _ <- emit V render (ActiveHours (hours msgs));
  do _ <- plot_emoji_usage V is_emoji render msgs;
  if decide (resp msgs = ∅) then emit V render NotEnoughData
  else emit V render (ResponseTime (resp msgs)).

Let counts_by_sender (msgs : list message) : output V :=
  CountsBySender (msg_count msgs) (img_count msgs) (stk_count msgs).

Let daily_forecast (msgs : list message) order fcast idx : output V :=
  DailyForecast (daily msgs) (rolling7 (map snd (daily msgs))) order fcast idx.

Lemma and_then_lift {A B} (a : A) (k : A -> run V B) :
  and_then V (lift V (Ok a)) k = k a.
Proof. unfold and_then, lift. by destruct (k a). Qed.

Lemma stages_unfold msgs calls :
  msgs <> [] ->
  stages_ msgs calls =
    do _ <- emit V render (counts_by_sender msgs);
    do (order, fcast, idx) <- lift V (forecast_ (daily msgs));
    do _ <- emit V render (daily_forecast msgs order fcast idx);
    later_stages msgs calls.
Proof.
  intros Hne. destruct msgs as [|m msgs]; [done|].
  unfold stages_, stages. cbn [column]. by rewrite and_then_lift.
Qed.


(** The bar chart of the counts by sender raises: the run ends there. *)
Lemma stages_stop_at_counts msgs calls e :
  msgs <> [] -> render (counts_by_sender msgs) = Raise e ->
  stages_ msgs calls = ([], Raise e).
Proof.
  intros Hne Hr. rewrite stages_unfold by done. unfold emit at 1.
  by rewrite Hr.
Qed.

(** The forecast raises: the run ends after the counts by sender. *)
Lemma stages_stop_at_forecast msgs calls e :
  msgs <> [] -> render (counts_by_sender msgs) = Ok tt ->
  forecast_ (daily msgs) = Raise e ->
  stages_ msgs calls = ([counts_by_sender msgs], Raise e).
Proof.
  intros Hne Hr Hf. rewrite stages_unfold by done. unfold emit at 1.
  rewrite Hr. cbn [and_then]. by rewrite Hf.
Qed.

(** The forecast returns and is drawn: the run goes on with the later
    stages. *)
Lemma stages_past_forecast msgs calls order fcast idx :
  msgs <> [] -> render (counts_by_sender msgs) = Ok tt ->
  forecast_ (daily msgs) = Ok (order, fcast, idx) ->
  render (daily_forecast msgs order fcast idx) = Ok tt ->
  stages_ msgs calls =
    (counts_by_sender msgs :: daily_forecast msgs order fcast idx
       :: (later_stages msgs calls).1,
     (later_stages msgs calls).2).
Proof.
  intros Hne Hr Hf Hr'. rewrite stages_unfold by done. unfold emit at 1.
  rewrite Hr. cbn [and_then]. rewrite Hf. cbn [lift and_then].
  unfold emit at 1. rewrite Hr'. cbn [and_then].
  by destruct (later_stages msgs calls).
Qed.


(** C3, amended.  When the order search or the fit raises, the exception
    leaves [analyze_chat]: the run ends with it, and only the counts by
    sender, drawn before the forecast, have been produced; the call
    heatmap, the call summary, the word corpus, the hour histogram, the
    emoji counts and the response times are not.  (When the bar chart of
    the counts by sender raises, the run has ended before the order search
    with that exception, and nothing has been produced.) *)
Theorem forecast_failure_is_fatal content msgs calls e :
  parse_chat content = Ok (msgs, calls) -> msgs <> [] ->
  auto_arima (map snd (daily msgs)) = Raise e \/
  (exists order,
      auto_arima (map snd (daily msgs)) = Ok order /\
      arima_forecast order (map snd (daily msgs)) 30 = Raise e) ->
  (render (CountsBySender (msg_count msgs) (img_count msgs) (stk_count msgs))
     = Ok tt ->
   analyze_chat_ content =
     ([CountsBySender (msg_count msgs) (img_count msgs) (stk_count msgs)],
      Raise e)) /\
  (forall e',
      render (CountsBySender (msg_count msgs) (img_count msgs) (stk_count msgs))
        = Raise e' ->
      analyze_chat_ content = ([], Raise e')).
Proof.
  intros Hparse Hne Hfail. rewrite (analyze_chat_parsed _ _ _ Hparse).
  assert (forecast_ (daily msgs) = Raise e) as Hf.
  { unfold forecast_, forecast.
    destruct Hfail as [->|(order & -> & Hfit)]; [done|].
    cbn [bind]. by rewrite Hfit. }
  split.
  - intros Hr. by apply stages_stop_at_forecast.
  - intros e' Hr. by apply stages_stop_at_counts.
Qed.

(** What [statsmodels] promises of [forecast(steps)]: as many values as
    steps asked for. *)
Hypothesis forecast_steps :
  forall order xs n v, arima_forecast order xs n = Ok v -> length v = n.


(** X20. When the last message is dated 31/12/9999 and the order search
    and the fit succeed, the day after the last date does not exist: the
    run ends with [OverflowError] after the counts by sender, and there is
    no forecast. *)
Theorem forecast_ends_with_calendar content msgs calls order fcast :
  parse_chat content = Ok (msgs, calls) ->
  last (map fst (daily msgs)) = Some max_ordinal ->
  auto_arima (map snd (daily msgs)) = Ok order ->
  arima_forecast order (map snd (daily msgs)) 30 = Ok fcast ->
  render (CountsBySender (msg_count msgs) (img_count msgs) (stk_count msgs))
    = Ok tt ->
  forecast_ (daily msgs) = Raise OverflowError /\
  analyze_chat_ content =
    ([CountsBySender (msg_count msgs) (img_count msgs) (stk_count msgs)],
     Raise OverflowError).
Proof.
  intros Hparse Hlast Horder Hfit Hr.
  pose proof (forecast_at_calendar_end _ _ _ Horder Hfit Hlast) as Hf.
  split; [done|]. rewrite (analyze_chat_parsed _ _ _ Hparse).
  apply stages_stop_at_forecast; [|done|done].
  intros ->. discriminate Hlast.
Qed.








Lemma later_stages_no_call msgs :
  later_stages msgs [] = ([], Raise KeyError).
Proof. reflexivity. Qed.


(** X16. A chat with messages but without any call: when the forecast
    succeeds and the first two plots are drawn, [analyze_chat] produces the
    counts by sender and the daily forecast, skips the heatmap, and stops
    with [KeyError] at the call summary; no later stage runs. *)
Theorem no_calls_stops_at_summary (content : text) msgs order fcast idx :
  parse_chat content = Ok (msgs, []) -> msgs <> [] ->
  forecast_ (daily msgs) = Ok (order, fcast, idx) ->
  render (CountsBySender (msg_count msgs) (img_count msgs) (stk_count msgs))
    = Ok tt ->
  render (DailyForecast (daily msgs) (rolling7 (map snd (daily msgs)))
                        order fcast idx) = Ok tt ->
  analyze_chat_ content =
    ([CountsBySender (msg_count msgs) (img_count msgs) (stk_count msgs);
      DailyForecast (daily msgs) (rolling7 (map snd (daily msgs)))
                    order fcast idx],
     Raise KeyError).
Proof.
  intros Hparse Hne Hf Hr Hr'. rewrite (analyze_chat_parsed _ _ _ Hparse).
  rewrite (stages_past_forecast _ _ _ _ _ Hne Hr Hf Hr').
  by rewrite later_stages_no_call.
Qed.

End PipelineFacts.


Lemma parse_chat_gap {py : Platform} :
  parse_chat chat_gap = Ok (chat_gap_msgs, []).
Proof. vm_compute. reflexivity. Qed.



(** C3, as stated, fails: on the one-day chat with an order search that
    does not converge, the run ends with the exception after the counts by
    sender; the hour histogram, the response times and the other later
    results are never produced. *)
Lemma forecast_failure_stops_the_run :
  exists msgs calls,
    parse_chat chat_one_day = Ok (msgs, calls) /\
    failing_order (map snd (daily msgs)) = Raise ValueError /\
    analyze_chat nat failing_order naive_forecast no_emoji no_stopword
                 renders_all chat_one_day =
      ([CountsBySender (msg_count msgs) (img_count msgs) (stk_count msgs)],
       Raise ValueError) /\
    ~ In (ActiveHours (hours msgs))
         (analyze_chat nat failing_order naive_forecast no_emoji no_stopword
                       renders_all chat_one_day).1 /\
    ~ In (ResponseTime (resp msgs))
         (analyze_chat nat failing_order naive_forecast no_emoji no_stopword
                       renders_all chat_one_day).1.
Proof.
  destruct (parse_chat chat_one_day) as [[msgs calls]|e] eqn:Hparse;
    [|vm_compute in Hparse; discriminate Hparse].
  exists msgs, calls. split; [done|]. split; [done|].
  assert (analyze_chat nat failing_order naive_forecast no_emoji no_stopword
            renders_all chat_one_day =
          ([CountsBySender (msg_count msgs) (img_count msgs) (stk_count msgs)],
           Raise ValueError)) as H.
  { unfold analyze_chat. rewrite Hparse. cbn [lift and_then].
    destruct msgs as [|m msgs]; [vm_compute in Hparse; discriminate Hparse|].
    reflexivity. }
  split; [exact H|]. rewrite H.
  split; intros [E|[]]; discriminate E.
Qed.

Lemma parse_chat_image {py : Platform} :
  parse_chat chat_image = Ok (chat_image_msgs, []).
Proof. vm_compute. reflexivity. Qed.

Lemma forecast_failure_is_fatal_witness :
  analyze_chat nat failing_order naive_forecast no_emoji no_stopword
               renders_all chat_gap =
    ([CountsBySender (msg_count chat_gap_msgs) (img_count chat_gap_msgs)
                     (stk_count chat_gap_msgs)],
     Raise ValueError) /\
  analyze_chat nat failing_order naive_forecast no_emoji no_stopword
               no_bar_chart chat_image = ([], Raise ValueError).
Proof.
  split.
  - apply (forecast_failure_is_fatal nat failing_order naive_forecast no_emoji
             no_stopword renders_all chat_gap chat_gap_msgs [] ValueError);
      [exact parse_chat_gap|done|by left|reflexivity].
  - apply (forecast_failure_is_fatal nat failing_order naive_forecast no_emoji
             no_stopword no_bar_chart chat_image chat_image_msgs [] ValueError);
      [exact parse_chat_image|done|by left|reflexivity].
Defined.

Lemma parse_chat_last_day {py : Platform} :
  parse_chat chat_last_day = Ok (chat_last_day_msgs, []).
Proof. vm_compute. reflexivity. Qed.

Lemma forecast_ends_with_calendar_witness :
  analyze_chat nat naive_order naive_forecast no_emoji no_stopword
               renders_all chat_last_day =
    ([CountsBySender (msg_count chat_last_day_msgs)
                     (img_count chat_last_day_msgs)
                     (stk_count chat_last_day_msgs)],
     Raise OverflowError).
Proof.
  apply (forecast_ends_with_calendar nat naive_order naive_forecast no_emoji
           no_stopword renders_all chat_last_day chat_last_day_msgs []
           (0, 0, 0) (repeat 1 30));
    [exact parse_chat_last_day|vm_compute; reflexivity|reflexivity
    |reflexivity|reflexivity].
Defined.


Lemma no_calls_stops_at_summary_witness :
  snd (analyze_chat nat naive_order naive_forecast no_emoji no_stopword
                    renders_all chat_gap) = Raise KeyError.
Proof.
  rewrite (no_calls_stops_at_summary nat naive_order naive_forecast no_emoji
             no_stopword renders_all chat_gap chat_gap_msgs (0, 0, 0)
             (repeat 1 30)
             (map (fun i => (ymd2ord 2024 1 3 + 1 + Z.of_nat i)%Z) (seq 0 30))).
  - reflexivity.
  - exact parse_chat_gap.
  - done.
  - reflexivity.
  - reflexivity.
  - reflexivity.
Defined.

(** * Further properties of the parser *)

Lemma findall_nil {py : Platform} : findall [] = [].
Proof. reflexivity. Qed.

Lemma suffix_of_line_ends (a rest : text) :
  forallb is_dot (a ++ rest) = true -> ends_run is_dot rest -> rest = [].
Proof.
  intros Hall Hend. apply forallb_app_r in Hall.
  destruct rest as [|c rest]; [done|].
  cbn in Hall, Hend. rewrite Hend in Hall. discriminate Hall.
Qed.

Lemma match_here_serialize {py : Platform} s g rest :
  match_here s = Some (g.1.1, g.1.2, g.2, rest) -> s = serialize g ++ rest.
Proof.
  intros H. apply match_here_sound in H as (-> & _).
  unfold serialize, dt_str_of, sender_of, body_of.
  by rewrite <- !app_assoc.
Qed.

Lemma findall_one_line {py : Platform} l :
  forallb is_dot l = true -> length (findall l) <= 1.
Proof.
  induction l as [|c l IH]; intros Hl; [cbn; lia|].
  rewrite findall_unfold.
  destruct (match_here (c :: l)) as [[[[ts sd] m] r]|] eqn:E.
  - pose proof (match_here_sound _ _ _ _ _ E) as (_ & _ & _ & _ & Hend).
    apply (match_here_serialize _ (ts, sd, m)) in E.
    rewrite E in Hl. apply suffix_of_line_ends in Hl as ->; [|done].
    cbn. lia.
  - apply IH. cbn in Hl. by apply andb_true_iff in Hl as [_ ?].
Qed.

(** X1. Matches never cross a line end: the matches of a text are those of
    its lines, in order, and a line gives at most one. *)
Theorem findall_line_by_line {py : Platform} (ls : list text) :
  Forall (fun l => forallb is_dot l = true) ls ->
  findall (unlines ls) = concat (map findall ls) /\
  Forall (fun l => length (findall l) <= 1) ls /\
  length (findall (unlines ls)) <= length ls.
Proof.
  intros Hls.
  assert (findall (unlines ls) = concat (map findall ls)) as Hcat.
  { clear Hls. induction ls as [|l [|l2 ls] IH]; [done| |].
    - cbn. by rewrite app_nil_r.
    - change (unlines (l :: l2 :: ls)) with (l ++ newline :: unlines (l2 :: ls)).
      rewrite findall_newline, IH. done. }
  assert (Forall (fun l => length (findall l) <= 1) ls) as Hone.
  { eapply Forall_impl; [exact Hls|]. intros l. apply findall_one_line. }
  split; [done|]. split; [done|]. rewrite Hcat. clear Hcat Hls.
  induction Hone as [|l ls Hl _ IH]; [cbn; lia|].
  cbn [map concat length]. rewrite length_app. lia.
Qed.

Lemma findall_line_by_line_witness :
  length (findall chat_good) <= 4.
Proof.
  apply (findall_line_by_line
           [txt "[01/01/2024, 10:00:00] Alice: hi";
            txt "[01/01/2024, 10:05:00] Bob: hey";
            txt "[01/01/2024, 10:10:00] Alice: how are you";
            txt "[02/01/2024, 09:00:00] Bob: Missed video call"]).
  repeat constructor.
Defined.

(** Where a match comes from: the text holds its line, and the pattern
    matches there. *)
Lemma findall_In {py : Platform} content g :
  In g (findall content) ->
  exists pre rest,
    content = pre ++ serialize g ++ rest /\
    match_here (serialize g ++ rest) = Some (g.1.1, g.1.2, g.2, rest).
Proof.
  remember (length content) as n eqn:Hn. revert content Hn.
  induction n as [n IH] using lt_wf_ind. intros content -> Hin.
  rewrite findall_unfold in Hin. destruct content as [|c s]; [done|].
  destruct (match_here (c :: s)) as [[[[ts sd] m] r]|] eqn:E.
  - pose proof (match_here_serialize _ (ts, sd, m) _ E) as Es.
    destruct Hin as [<-|Hin].
    + exists [], r. split; [done|]. by rewrite <- Es.
    + destruct (IH (length r)) with (content := r) as (pre & rest & -> & Hm);
        [|done|done|].
      * rewrite Es, length_app. unfold serialize, txt. cbn. lia.
      * exists (serialize (ts, sd, m) ++ pre), rest.
        split; [|done]. rewrite Es. by rewrite <- app_assoc.
  - destruct (IH (length s)) with (content := s) as (pre & rest & -> & Hm);
      [cbn; lia|done|done|].
    by exists (c :: pre), rest.
Qed.

(** X2. Each match, written back as [[stamp] sender: body], is a piece of
    the text it was found in; its stamp has the two-digit shape, its sender
    and body are non-empty and stay on one line; and parsing the line
    written back gives the same three fields again. *)
Theorem matches_reserialize {py : Platform} (content : text) (g : text * text * text) :
  In g (findall content) ->
  occurs (serialize g) content /\
  match_tokens stamp (dt_str_of g) = Some (dt_str_of g, []) /\
  line_text (sender_of g) /\ line_text (body_of g) /\
  findall (serialize g) = [g].
Proof.
  intros Hin. destruct (findall_In _ _ Hin) as (pre & rest & -> & Hm).
  destruct g as [[ts sd] m].
  pose proof (match_here_sound _ _ _ _ _ Hm) as (_ & Hts & Hsd & Hbody & Hend).
  split; [by exists pre, rest|]. split; [done|]. split; [done|]. split; [done|].
  assert (match_here (serialize (ts, sd, m)) = Some (ts, sd, m, [])) as Hm'.
  { destruct rest as [|c rest]; [by rewrite app_nil_r in Hm|].
    cbn in Hend. unfold is_dot in Hend.
    apply negb_false_iff, N.eqb_eq in Hend as ->.
    rewrite match_here_newline in Hm.
    destruct (match_here (serialize (ts, sd, m))) as [[[[a b] c] r]|];
      [|done].
    cbn in Hm. injection Hm as -> -> -> Hr.
    by apply (app_inv_tail (newline :: rest) r []) in Hr as ->. }
  rewrite findall_unfold.
  unfold serialize in *. change (txt "[" ++ ?x) with (ch "[" :: x) in *.
  by rewrite Hm'.
Qed.

Lemma matches_reserialize_witness :
  findall (txt "[01/01/2024, 10:05:00] Bob: hey")
    = [(txt "01/01/2024, 10:05:00", txt "Bob", txt "hey")].
Proof.
  destruct (matches_reserialize chat_good
              (txt "01/01/2024, 10:05:00", txt "Bob", txt "hey"))
    as (_ & _ & _ & _ & H).
  - vm_compute. right. left. reflexivity.
  - exact H.
Defined.

Lemma findall_no_bracket {py : Platform} content :
  ~ In (ch "[") content -> findall content = [].
Proof.
  induction content as [|c s IH]; intros Hno; [done|].
  rewrite findall_unfold.
  assert (match_here (c :: s) = None) as ->.
  { unfold match_here.
    destruct (strip_prefix (txt "[") (c :: s)) as [r|] eqn:E; [|done].
    apply strip_prefix_app in E. injection E as -> _.
    exfalso. apply Hno. by left. }
  apply IH. intros Hin. apply Hno. by right.
Qed.

Section NoRecord.

Context {py : Platform}.
Variable V : Type.
Variable auto_arima : list nat -> result (nat * nat * nat).
Variable arima_forecast : nat * nat * nat -> list nat -> nat -> result (list V).
Variable is_emoji : char -> bool.
Variable spanish_sw : text -> bool.
Variable render : output V -> result unit.

(** X3. A text without any opening bracket, the empty file included, has
    no record: [parse_chat] returns two empty lists, and [analyze_chat]
    then stops with [KeyError] at the first column it reads, before any
    stage has produced a result. *)
Theorem no_bracket_no_record (content : text) :
  ~ In (ch "[") content ->
  parse_chat content = Ok ([], []) /\
  analyze_chat V auto_arima arima_forecast is_emoji spanish_sw render content
    = ([], Raise KeyError).
Proof.
  intros Hno. unfold analyze_chat, parse_chat.
  by rewrite findall_no_bracket.
Qed.

End NoRecord.

Lemma no_bracket_no_record_witness :
  parse_chat (txt "Messages are end-to-end encrypted.") = Ok ([], []) /\
  analyze_chat nat naive_order naive_forecast no_emoji no_stopword renders_all
               (txt "Messages are end-to-end encrypted.")
    = ([], Raise KeyError).
Proof.
  apply no_bracket_no_record.
  vm_compute. intros H.
  repeat (destruct H as [H|H]; [discriminate H|]). exact H.
Defined.

(** ** Call records *)

Lemma digit_value_bounds {py : Platform} c :
  is_digit c = true -> (0 <= digit_value c <= 9)%Z.
Proof.
  unfold is_digit, digit_value, ascii_digit, between.
  destruct (is_ascii c).
  - intros [H1 H2]%andb_true_iff. apply N.leb_le in H1, H2. lia.
  - destruct (uni_decimal c) as [d|]; [|done]. intros _.
    pose proof (fin_to_nat_lt d). lia.
Qed.

Lemma int_snoc {py : Platform} ds c : int (ds ++ [c]) = (10 * int ds + digit_value c)%Z.
Proof. unfold int. by rewrite fold_left_app. Qed.

Lemma int_nonneg {py : Platform} ds : forallb is_digit ds = true -> (0 <= int ds)%Z.
Proof.
  induction ds as [|c ds IH] using rev_ind; intros Hd; [done|].
  rewrite forallb_app in Hd. apply andb_true_iff in Hd as [Hds Hc].
  cbn in Hc. rewrite andb_true_r in Hc.
  rewrite int_snoc. pose proof (digit_value_bounds c Hc).
  specialize (IH Hds). lia.
Qed.

Lemma search_int_word_digits {py : Platform} s ds w :
  search_int_word s = Some (ds, w) -> forallb is_digit ds = true.
Proof.
  induction s as [|c s IH]; rewrite search_int_word_unfold;
    destruct (match_int_word _) as [[ds' w']|] eqn:E; intros H.
  - injection H as -> ->.
    by apply match_int_word_sound in E as [post [_ Hd _ _ _ _]].
  - discriminate H.
  - injection H as -> ->.
    by apply match_int_word_sound in E as [post [_ Hd _ _ _ _]].
  - by apply IH.
Qed.

Lemma call_duration_nonneg {py : Platform} msg : (0 <= call_duration msg)%Z.
Proof.
  unfold call_duration. destruct (call_type_of msg); [done|].
  destruct (search_int_word msg) as [[ds w]|] eqn:E; [|done].
  apply search_int_word_digits, int_nonneg in E.
  destruct (startswith _ _); lia.
Qed.

Lemma call_record_of_match {py : Platform} content msgs calls c :
  parse_chat content = Ok (msgs, calls) -> In c calls ->
  exists g, In g (findall content) /\ call_of g c.
Proof.
  intros Hparse Hc. apply parse_matches_ok in Hparse as (_ & Hcalls & _).
  apply list_elem_of_In, list_elem_of_lookup in Hc as [i Hi].
  destruct (Forall2_lookup_r _ _ _ _ _ Hcalls Hi) as (g & Hg & Hof).
  exists g. split; [|done].
  apply (list_elem_of_lookup_2 _ i), list_elem_of_In, filter_In in Hg.
  by destruct Hg.
Qed.

Lemma call_record_nonneg {py : Platform} content msgs calls c :
  parse_chat content = Ok (msgs, calls) -> In c calls ->
  (0 <= c_duration c)%Z.
Proof.
  intros Hparse Hc.
  destruct (call_record_of_match _ _ _ _ Hparse Hc) as (g & _ & _ & _ & -> & _).
  apply call_duration_nonneg.
Qed.

(** X4. Every call record that [parse_chat] returns has a duration of at
    least 0 minutes, and a call of type Missed has duration 0. *)
Theorem call_records_invariant {py : Platform} (content : text) msgs calls c :
  parse_chat content = Ok (msgs, calls) -> In c calls ->
  (0 <= c_duration c)%Z /\ (c_type c = Missed -> c_duration c = 0%Z).
Proof.
  intros Hparse Hc. split; [by eapply call_record_nonneg|].
  destruct (call_record_of_match _ _ _ _ Hparse Hc)
    as (g & _ & _ & _ & -> & ->).
  unfold call_duration. by intros ->.
Qed.

Lemma call_records_invariant_witness :
  Forall (fun c => (0 <= c_duration c)%Z /\
                   (c_type c = Missed -> c_duration c = 0%Z))
         chat_good_calls.
Proof.
  constructor; [|constructor].
  apply (call_records_invariant chat_good chat_good_msgs chat_good_calls).
  - vm_compute. reflexivity.
  - by left.
Defined.

(** ** Timestamps *)

Lemma match_tokens_Forall2 {py : Platform} p s m r :
  match_tokens p s = Some (m, r) ->
  Forall2 (fun t c => match_token t c = true) p m /\ s = m ++ r.
Proof.
  revert s m. induction p as [|t p IH]; cbn [match_tokens]; intros s m H.
  - inversion H. by split; [constructor|].
  - destruct s as [|c s]; [done|].
    destruct (match_token t c) eqn:Et; [|done].
    destruct (match_tokens p s) as [[m' r']|] eqn:E; [|done].
    inversion H; subst. destruct (IH _ _ E) as [HF ->].
    split; [by constructor|done].
Qed.

(** Two ASCII characters with the same digit value are the same. *)
Lemma digit_value_inj {py : Platform} c c' :
  is_ascii c = true -> is_ascii c' = true ->
  digit_value c = digit_value c' -> c = c'.
Proof.
  unfold digit_value. intros -> ->. lia.
Qed.

(** The twenty characters of a stamp. *)
Lemma stamp_chars {py : Platform} s m :
  match_tokens stamp s = Some (m, []) ->
  exists d1 d2 m1 m2 y1 y2 y3 y4 h1 h2 n1 n2 s1 s2,
    s = [d1; d2; ch "/"; m1; m2; ch "/"; y1; y2; y3; y4; ch ","; ch " ";
         h1; h2; ch ":"; n1; n2; ch ":"; s1; s2] /\
    Forall (fun c => is_digit c = true)
           [d1; d2; m1; m2; y1; y2; y3; y4; h1; h2; n1; n2; s1; s2].
Proof.
  intros H. apply match_tokens_Forall2 in H as [HF ->].
  rewrite app_nil_r. unfold stamp in HF.
  repeat match goal with
         | H : Forall2 _ (_ :: _) _ |- _ =>
             apply Forall2_cons_inv_l in H as (? & ? & ? & H & ->)
         | H : Forall2 _ [] _ |- _ => apply Forall2_nil_inv_l in H as ->
         | H : match_token (Lit _) _ = true |- _ =>
             cbn [match_token] in H; apply N.eqb_eq in H; subst
         | H : match_token Digit _ = true |- _ => cbn [match_token] in H
         end.
  eexists _, _, _, _, _, _, _, _, _, _, _, _, _, _.
  split; [reflexivity|]. repeat constructor; assumption.
Qed.

(** X5. [strptime] returns only valid calendar date-times, and for two
    stamps written in ASCII it returns the same date-time only when they
    are the same text.  (A stamp with a digit of another script can give
    the date-time of an ASCII stamp.) *)
Theorem strptime_valid_and_injective {py : Platform} (s s' : text) (dt : datetime) :
  strptime s = Ok dt ->
  valid dt = true /\
  (forallb is_ascii s = true -> forallb is_ascii s' = true ->
   strptime s' = Ok dt -> s = s').
Proof.
  intros H. split; [by apply strptime_valid in H|]. intros Ha Ha' H'.
  unfold strptime in H, H'. rewrite Ha in H. rewrite Ha' in H'.
  destruct (match_tokens stamp s) as [[m [|? ?]]|] eqn:E; try done.
  destruct (match_tokens stamp s') as [[m' [|? ?]]|] eqn:E'; try done.
  apply stamp_chars in E
    as (d1 & d2 & m1 & m2 & y1 & y2 & y3 & y4 & h1 & h2 & n1 & n2 & s1 & s2
        & -> & HF).
  apply stamp_chars in E'
    as (d1' & d2' & m1' & m2' & y1' & y2' & y3' & y4' & h1' & h2' & n1' & n2'
        & s1' & s2' & -> & HF').
  destruct (valid _); [|done]. destruct (valid _); [|done].
  injection H as <-. injection H' as Hy Hm Hd Hh Hn Hs.
  unfold slice, int in *. cbn [take drop Nat.sub fold_left] in *.
  cbn [forallb] in Ha, Ha'.
  repeat match goal with
         | H : _ && _ = true |- _ => apply andb_true_iff in H as [? H]
         end.
  repeat match goal with
         | H : Forall _ (_ :: _) |- _ =>
             apply Forall_cons_1 in H as [?%digit_value_bounds H]
         end.
  repeat f_equal; apply digit_value_inj; try assumption; lia.
Qed.

Lemma strptime_valid_and_injective_witness :
  valid ts0 = true /\ (strptime stamp0 = Ok ts0 -> stamp0 = stamp0).
Proof.
  destruct (strptime_valid_and_injective stamp0 stamp0 ts0) as [Hv Hinj];
    [reflexivity|].
  split; [exact Hv|]. by apply Hinj.
Defined.

(** * Further properties of the tables *)

Lemma total_count (k : text) (m : gmap text nat) :
  total (<[k := S (default 0 (m !! k))]> m) = S (total m).
Proof.
  unfold total.
  assert (forall (m' : gmap text nat) j1 j2 z1 z2 y,
             j1 <> j2 -> m' !! j1 = Some z1 -> m' !! j2 = Some z2 ->
             z1 + (z2 + y) = z2 + (z1 + y)) as Hcomm by (intros; lia).
  destruct (m !! k) as [n|] eqn:E; cbn [default].
  - rewrite <- insert_delete_eq.
    rewrite map_fold_insert_L;
      [|by eauto|by rewrite lookup_delete_eq].
    rewrite (map_fold_delete_L _ _ k n m); [cbn; lia|by eauto|done].
  - rewrite map_fold_insert_L; [done|by eauto|done].
Qed.

Lemma total_value_counts keys : total (value_counts keys) = length keys.
Proof.
  induction keys as [|k keys IH] using rev_ind; [done|].
  rewrite value_counts_snoc, total_count, IH, length_app. cbn. lia.
Qed.

(** X6. The counts by sender add up: the message counts to the number of
    messages, the image and sticker counts to the number of messages that
    contain "image omitted" and "sticker omitted" in any letter case. *)
Theorem counts_add_up {py : Platform} (msgs : list message) :
  total (msg_count msgs) = length msgs /\
  total (img_count msgs) = length (omitted "image omitted" msgs) /\
  total (stk_count msgs) = length (omitted "sticker omitted" msgs).
Proof.
  unfold msg_count, img_count, stk_count, sender_col.
  by rewrite !total_value_counts, !length_map.
Qed.

Lemma rows_with_filter s (f : message -> bool) msgs :
  rows_with s (sender_col (List.filter f msgs)) <= rows_with s (sender_col msgs).
Proof.
  unfold rows_with, sender_col. induction msgs as [|m msgs IH]; [done|].
  cbn [List.filter]. destruct (f m); cbn [map List.filter];
    destruct (bool_decide _); cbn [length]; lia.
Qed.

Lemma filtered_counts_bounded (f : message -> bool) msgs sender n :
  value_counts (sender_col (List.filter f msgs)) !! sender = Some n ->
  exists k, msg_count msgs !! sender = Some k /\ 1 <= n <= k.
Proof.
  unfold msg_count. rewrite !value_counts_lookup.
  pose proof (rows_with_filter sender f msgs) as Hle.
  destruct (rows_with sender (sender_col (List.filter f msgs))) as [|a];
    [done|].
  intros H. inversion H; subst.
  destruct (rows_with sender (sender_col msgs)) as [|b]; [lia|].
  exists (S b). split; [done|lia].
Qed.

(** X7. A sender's image count and sticker count never exceed the sender's
    message count, and only senders of the message counts have one. *)
Theorem media_counts_bounded {py : Platform} (msgs : list message) (sender : text) (n : nat) :
  img_count msgs !! sender = Some n \/ stk_count msgs !! sender = Some n ->
  exists k, msg_count msgs !! sender = Some k /\ 1 <= n <= k.
Proof.
  unfold img_count, stk_count, omitted.
  intros [H|H]; by apply filtered_counts_bounded in H.
Qed.

Lemma media_counts_bounded_witness :
  exists k, msg_count chat_gap_msgs !! txt "Alice" = Some k /\ 1 <= 1 <= k.
Proof.
  apply (media_counts_bounded chat_gap_msgs (txt "Alice") 1).
  left. vm_compute. reflexivity.
Defined.

Lemma row_total_bump k rows : row_total (bump k rows) = S (row_total rows).
Proof.
  induction rows as [|[k' n] rows IH]; [done|]. cbn [bump].
  destruct (k <? k')%Z; [done|]. destruct (k =? k')%Z; [done|].
  cbn [row_total foldr snd] in *. fold (row_total (bump k rows)).
  fold (row_total rows). lia.
Qed.

Lemma row_total_size_by_key keys : row_total (size_by_key keys) = length keys.
Proof.
  induction keys as [|k keys IH] using rev_ind; [done|].
  rewrite size_by_key_snoc, row_total_bump, IH, length_app. cbn. lia.
Qed.

(** X8. The daily series and the hour histogram each count every message
    once: their counts add up to the number of messages. *)
Theorem daily_and_hours_add_up (msgs : list message) :
  row_total (daily msgs) = length msgs /\
  row_total (hours msgs) = length msgs.
Proof.
  unfold daily, hours. by rewrite !row_total_size_by_key, !length_map.
Qed.

Lemma occurrences_map_filter (f : message -> Z) d msgs :
  occurrences d (map f msgs) =
    length (List.filter (fun m => (d =? f m)%Z) msgs).
Proof.
  unfold occurrences. induction msgs as [|m msgs IH]; [done|].
  cbn [map List.filter]. destruct (d =? f m)%Z; cbn [length]; by rewrite IH.
Qed.

Lemma same_day_date_of a b :
  valid a = true -> valid b = true ->
  (date_of a =? date_of b)%Z = same_day a b.
Proof.
  intros Ha Hb. unfold same_day.
  pose proof (date_of_same_day a b Ha Hb) as Hiff.
  destruct (Z.eqb_spec (date_of a) (date_of b)) as [E|E].
  - apply Hiff in E as (-> & -> & ->). by rewrite !Z.eqb_refl.
  - symmetry. apply not_true_is_false. intros H. apply E, Hiff.
    repeat (apply andb_true_iff in H as [H ?]). lia.
Qed.

(** X9. In the daily series of the parsed messages, the row of a message's
    date counts exactly the messages with the same day, month and year. *)
Theorem daily_counts_same_day {py : Platform} (content : text) msgs calls (m : message) :
  parse_chat content = Ok (msgs, calls) -> In m msgs ->
  In (date_of (m_datetime m),
      length (List.filter
                (fun m' => same_day (m_datetime m) (m_datetime m')) msgs))
     (daily msgs).
Proof.
  intros Hparse Hm. unfold daily. apply size_by_key_rows.
  rewrite occurrences_map_filter.
  assert (List.filter (fun m' => (date_of (m_datetime m)
                                  =? date_of (m_datetime m'))%Z) msgs
          = List.filter (fun m' => same_day (m_datetime m) (m_datetime m')) msgs)
    as ->.
  { apply filter_ext_in. intros m' Hm'.
    apply same_day_date_of; by eapply parse_chat_valid. }
  split; [done|].
  assert (In m (List.filter (fun m' => same_day (m_datetime m) (m_datetime m'))
                            msgs)) as Hin.
  { apply filter_In. split; [done|]. unfold same_day.
    by rewrite !Z.eqb_refl. }
  destruct (List.filter _ msgs); [done|cbn; lia].
Qed.

Lemma daily_counts_same_day_witness :
  In (ymd2ord 2024 1 1, 2) (daily chat_gap_msgs).
Proof.
  apply (daily_counts_same_day chat_gap chat_gap_msgs []
           (mk_message (mk_datetime 2024 1 1 10 0 0) (txt "Alice")
                       (txt "image omitted"))).
  - vm_compute. reflexivity.
  - by left.
Defined.

(** ** Calls *)

Lemma Qsum_nonneg xs : Forall (fun q => (0 <= q)%Q) xs -> (0 <= Qsum xs)%Q.
Proof.
  induction 1 as [|q xs Hq _ IH]; cbn; [apply Qle_refl|].
  replace 0%Q with (0 + 0)%Q by reflexivity. by apply Qplus_le_compat.
Qed.

Lemma mean_nonneg xs : Forall (fun q => (0 <= q)%Q) xs -> (0 <= mean xs)%Q.
Proof.
  intros H. unfold mean, Qdiv. apply Qmult_le_0_compat.
  - by apply Qsum_nonneg.
  - apply Qinv_le_0_compat. unfold Qle. cbn. lia.
Qed.

Lemma filter_split_length {A} (f : A -> bool) l :
  length l = length (List.filter f l)
             + length (List.filter (fun x => negb (f x)) l).
Proof.
  induction l as [|x l IH]; [done|]. cbn [List.filter].
  destruct (f x); cbn [negb length]; lia.
Qed.

(** X10. In the call summary of the parsed calls the total is the number of
    call records and equals completed plus missed; the mean completed
    duration is never negative, and it is 0 when no call was completed. *)
Theorem call_stats_consistent {py : Platform} (content : text) msgs calls :
  parse_chat content = Ok (msgs, calls) ->
  let '(total, comp, miss, avg_dur) := call_stats calls in
  total = length calls /\ total = comp + miss /\
  (0 <= avg_dur)%Q /\ (comp = 0 -> avg_dur = 0%Q).
Proof.
  intros Hparse. unfold call_stats.
  split; [done|]. split; [apply filter_split_length|].
  assert (Forall (fun q => (0 <= q)%Q)
            (map (fun c => inject_Z (c_duration c))
                 (List.filter is_completed calls))) as Hpos.
  { apply List.Forall_forall. intros q (c & <- & Hc)%in_map_iff.
    apply filter_In in Hc as [Hc _].
    pose proof (call_record_nonneg _ _ _ _ Hparse Hc).
    unfold Qle. cbn. lia. }
  destruct (List.filter is_completed calls) as [|c cs];
    [split; [apply Qle_refl|done]|].
  split; [by apply mean_nonneg|done].
Qed.

Lemma call_stats_consistent_witness :
  let '(total, comp, miss, avg_dur) := call_stats chat_good_calls in
  total = length chat_good_calls /\ total = comp + miss /\
  (0 <= avg_dur)%Q /\ (comp = 0 -> avg_dur = 0%Q).
Proof.
  exact (call_stats_consistent chat_good chat_good_msgs chat_good_calls
           parse_chat_good).
Defined.

Lemma group_rows_snoc {K V} `{Countable K} (rows : list (K * V)) k v :
  group_rows (rows ++ [(k, v)]) =
    <[k := default [] (group_rows rows !! k) ++ [v]]> (group_rows rows).
Proof. unfold group_rows. by rewrite fold_left_app. Qed.

(** A key has a group exactly when it has a row. *)
Lemma group_rows_is_Some {K V} `{Countable K} (rows : list (K * V)) k :
  is_Some (group_rows rows !! k) <-> exists v, In (k, v) rows.
Proof.
  induction rows as [|[k' v'] rows IH] using rev_ind.
  - unfold group_rows. cbn. rewrite lookup_empty. split.
    + by intros [? ?].
    + by intros [? []].
  - rewrite group_rows_snoc. destruct (decide (k' = k)) as [->|Hne].
    + rewrite lookup_insert_eq. split; [|by eauto].
      intros _. exists v'. apply in_app_iff. right. by left.
    + rewrite lookup_insert_ne by done. rewrite IH. split.
      * intros [v Hv]. exists v. apply in_app_iff. by left.
      * intros [v [Hv|[Hv|[]]]%in_app_iff]; [by exists v|congruence].
Qed.

Lemma call_record_valid {py : Platform} content msgs calls c :
  parse_chat content = Ok (msgs, calls) -> In c calls ->
  valid (c_datetime c) = true.
Proof.
  intros Hparse Hc.
  destruct (call_record_of_match _ _ _ _ Hparse Hc) as (g & _ & Hdt & _).
  by apply strptime_valid in Hdt.
Qed.

(** X11. The call heatmap of the parsed calls has a cell exactly for the
    (day of week, hour) slots in which a call was made, missed calls
    included, and every cell lies within Monday=0..Sunday=6 and hours
    0..23. *)
Theorem heat_cells {py : Platform} (content : text) msgs calls (dow h : Z) :
  parse_chat content = Ok (msgs, calls) ->
  (is_Some (heat calls !! (dow, h)) <->
   exists c, In c calls /\ dayofweek (c_datetime c) = dow /\
             hour (c_datetime c) = h) /\
  (is_Some (heat calls !! (dow, h)) ->
   (0 <= dow <= 6)%Z /\ (0 <= h <= 23)%Z).
Proof.
  intros Hparse.
  assert (is_Some (heat calls !! (dow, h)) <->
          exists c, In c calls /\ dayofweek (c_datetime c) = dow /\
                    hour (c_datetime c) = h) as Hiff.
  { unfold heat. rewrite lookup_fmap, fmap_is_Some, group_rows_is_Some.
    split.
    - intros [v (c & E & Hc)%in_map_iff]. exists c. by inversion E.
    - intros (c & Hc & <- & <-). exists (c_duration c).
      apply in_map_iff. by exists c. }
  split; [done|]. intros (c & Hc & <- & <-)%Hiff.
  pose proof (call_record_valid _ _ _ _ Hparse Hc) as Hv.
  split.
  - unfold dayofweek. pose proof (Z.mod_pos_bound (date_of (c_datetime c) + 6) 7).
    lia.
  - unfold valid in Hv. repeat (apply andb_true_iff in Hv as [Hv ?]). lia.
Qed.

Lemma heat_cells_witness :
  (0 <= 1 <= 6)%Z /\ (0 <= 9 <= 23)%Z.
Proof.
  apply (heat_cells chat_good chat_good_msgs chat_good_calls 1 9
           parse_chat_good).
  vm_compute. eauto.
Defined.

(** ** Message lengths *)

Lemma rows_of_length {V} (f : message -> V) sender msgs :
  length (rows_of sender (map (fun m => (m_sender m, f m)) msgs)) =
    rows_with sender (sender_col msgs).
Proof.
  unfold rows_of, rows_with, sender_col.
  induction msgs as [|m msgs IH]; [done|].
  cbn [map List.filter fst]. destruct (bool_decide _); cbn [map length];
    by rewrite IH.
Qed.

(** X12. The length histograms have one sample per message: a sender has
    as many lengths as messages in the message counts, and a sender without
    messages has neither. *)
Theorem lengths_match_counts (msgs : list message) (sender : text) :
  length <$> (lengths_by_sender msgs !! sender) = msg_count msgs !! sender.
Proof.
  unfold lengths_by_sender, msg_count.
  rewrite group_rows_lookup, value_counts_lookup.
  rewrite <- (rows_of_length (fun m => length (m_message m))).
  by destruct (rows_of sender _).
Qed.

(** ** Response times, continued *)

Lemma times_of_length sender msgs :
  length (times_of sender msgs) = rows_with sender (sender_col msgs).
Proof.
  unfold times_of, rows_with, sender_col.
  induction msgs as [|m msgs IH]; [done|].
  cbn [map List.filter]. destruct (bool_decide _); cbn [map length];
    by rewrite IH.
Qed.

Lemma resp_is_Some msgs sender :
  is_Some (resp msgs !! sender) <->
  exists n, msg_count msgs !! sender = Some n /\ 2 <= n.
Proof.
  rewrite resp_lookup. unfold msg_count. rewrite value_counts_lookup.
  rewrite <- times_of_length.
  pose proof (gaps_length (times_of sender msgs)) as Hlen.
  destruct (gaps (times_of sender msgs)) as [|g gs];
    destruct (length (times_of sender msgs)) as [|[|n]]; cbn in Hlen;
    try lia.
  - split; [by intros [? ?]|]. by intros (n & ? & ?).
  - split; [by intros [? ?]|]. intros (n & H & ?). inversion H. lia.
  - split; [|by eauto]. intros _. exists (S (S n)). split; [done|lia].
Qed.

(** X13. The response-time table has an entry exactly for the senders that
    have at least two messages in the message counts; it is empty (the case
    in which the pipeline reports that there is not enough data) exactly
    when every sender has a single message. *)
Theorem resp_entries (msgs : list message) :
  (forall sender,
      is_Some (resp msgs !! sender) <->
      exists n, msg_count msgs !! sender = Some n /\ 2 <= n) /\
  (resp msgs = ∅ <->
   forall sender n, msg_count msgs !! sender = Some n -> n = 1).
Proof.
  split; [apply resp_is_Some|]. rewrite map_empty. split.
  - intros Hnone sender n Hn.
    destruct (decide (2 <= n)) as [Hge|Hlt].
    + assert (is_Some (resp msgs !! sender)) as [q Hq]
        by (apply resp_is_Some; eauto).
      rewrite Hnone in Hq. discriminate Hq.
    + unfold msg_count in Hn. rewrite value_counts_lookup in Hn.
      destruct (rows_with _ _); [done|]. inversion Hn. lia.
  - intros Hone sender. apply eq_None_not_Some.
    intros (n & Hn & Hge)%resp_is_Some. apply Hone in Hn. lia.
Qed.

Lemma gaps_sum ts t0 tn :
  head ts = Some t0 -> last ts = Some tn -> Zsum (gaps ts) = (tn - t0)%Z.
Proof.
  revert t0. induction ts as [|a [|b ts] IH]; intros t0 Hh Hl; [done| |].
  - cbn in *. inversion Hh; inversion Hl; subst. lia.
  - cbn [head] in Hh. inversion Hh; subst.
    change (last (t0 :: b :: ts)) with (last (b :: ts)) in Hl.
    change (gaps (t0 :: b :: ts)) with ((b - t0)%Z :: gaps (b :: ts)).
    cbn [Zsum foldr]. fold (Zsum (gaps (b :: ts))).
    rewrite (IH b eq_refl Hl). lia.
Qed.

(** X14. The gaps of a sender add up to the time from the sender's first
    to the sender's last message, so the mean response time is that time,
    in minutes, divided by the number of the sender's messages minus one. *)
Theorem resp_is_span_over_gaps (msgs : list message) (sender : text) t0 tn :
  head (times_of sender msgs) = Some t0 ->
  last (times_of sender msgs) = Some tn ->
  2 <= length (times_of sender msgs) ->
  exists q,
    resp msgs !! sender = Some q /\
    (q == inject_Z (tn - t0) / 60
          / inject_Z (Z.of_nat (length (times_of sender msgs) - 1)))%Q.
Proof.
  intros Hh Hl Hlen. rewrite resp_lookup.
  pose proof (gaps_length (times_of sender msgs)) as Hg.
  pose proof (gaps_sum _ _ _ Hh Hl) as Hsum.
  destruct (gaps (times_of sender msgs)) as [|g gs] eqn:E;
    [cbn in Hg; lia|].
  eexists. split; [reflexivity|].
  unfold mean. rewrite Qsum_minutes, Hsum, length_map, Hg. reflexivity.
Qed.

Lemma resp_is_span_over_gaps_witness :
  exists q, resp chat_good_msgs !! txt "Alice" = Some q /\ (q == 10)%Q.
Proof.
  destruct (resp_is_span_over_gaps chat_good_msgs (txt "Alice")
              (seconds_of (mk_datetime 2024 1 1 10 0 0))
              (seconds_of (mk_datetime 2024 1 1 10 10 0)))
    as (q & Hq & Eq); [reflexivity|reflexivity|vm_compute; lia|].
  exists q. split; [done|]. rewrite Eq. vm_compute. reflexivity.
Defined.

(** * Further properties of the word corpus *)

Lemma split_ws_space {py : Platform} cur a c b :
  is_space c = true ->
  split_ws cur (a ++ c :: b) = split_ws cur a ++ split_ws [] b.
Proof.
  intros Hc. revert cur. induction a as [|x a IH]; intros cur.
  - cbn [app split_ws]. rewrite Hc. by destruct cur.
  - cbn [app split_ws]. destruct (is_space x).
    + destruct cur; by rewrite IH.
    + apply IH.
Qed.

Lemma split_ws_token {py : Platform} cur w :
  forallb (fun c => negb (is_space c)) w = true -> cur ++ w <> [] ->
  split_ws cur w = [cur ++ w].
Proof.
  revert cur. induction w as [|c w IH]; intros cur Hw Hne.
  - rewrite app_nil_r in *. cbn. by destruct cur.
  - cbn [forallb] in Hw. apply andb_true_iff in Hw as [Hc Hw].
    cbn [split_ws]. apply negb_true_iff in Hc. rewrite Hc.
    rewrite IH; [by rewrite <- app_assoc|done|].
    rewrite <- app_assoc. by destruct cur.
Qed.

Lemma split_ws_tokens {py : Platform} cur s :
  forallb (fun c => negb (is_space c)) cur = true ->
  Forall is_token (split_ws cur s).
Proof.
  revert cur. induction s as [|c s IH]; intros cur Hcur.
  - cbn. destruct cur; repeat constructor; done.
  - cbn [split_ws]. destruct (is_space c) eqn:Hc.
    + destruct cur; [by apply IH|].
      constructor; [by split|by apply IH].
    + apply IH. rewrite forallb_app, Hcur. cbn. by rewrite Hc.
Qed.

Lemma split_join_texts {py : Platform} (ts : list text) :
  split_ws [] (join_sp ts) = concat (map (split_ws []) ts).
Proof.
  induction ts as [|t [|t2 ts] IH]; [done| |].
  - cbn. by rewrite app_nil_r.
  - change (join_sp (t :: t2 :: ts))
      with (t ++ ch " " :: join_sp (t2 :: ts)).
    rewrite split_ws_space by done. by rewrite IH.
Qed.

Lemma split_join_tokens {py : Platform} (ws : list text) :
  Forall is_token ws -> split_ws [] (join_sp ws) = ws.
Proof.
  intros Hws. rewrite split_join_texts.
  induction Hws as [|w ws [Hne Hw] _ IH]; [done|].
  cbn [map concat]. rewrite IH, split_ws_token by done. done.
Qed.

Lemma kept_words_tokens {py : Platform} sw m : Forall is_token (kept_words sw m).
Proof.
  unfold kept_words. apply List.Forall_forall. intros w [Hw _]%filter_In.
  pose proof (split_ws_tokens [] (lower (m_message m)) eq_refl) as H.
  rewrite List.Forall_forall in H. by apply H.
Qed.

(** X17. Split at white space again, the corpus gives exactly the words
    kept from each message, in chat order; each of them is a word of the
    lower-cased text of a message, non-empty, without white space, made of
    letters only, and not a stopword. *)
Theorem corpus_words {py : Platform} (spanish_sw : text -> bool) (msgs : list message) :
  split_ws [] (corpus spanish_sw msgs)
    = concat (map (kept_words spanish_sw) msgs) /\
  Forall (fun w =>
            is_token w /\ forallb is_alpha w = true /\ spanish_sw w = false /\
            exists m, In m msgs /\ In w (split_ws [] (lower (m_message m))))
         (split_ws [] (corpus spanish_sw msgs)).
Proof.
  assert (split_ws [] (corpus spanish_sw msgs)
          = concat (map (kept_words spanish_sw) msgs)) as Hsplit.
  { unfold corpus. rewrite split_join_texts, map_map. f_equal.
    apply map_ext. intros m. apply split_join_tokens, kept_words_tokens. }
  split; [done|]. rewrite Hsplit.
  apply List.Forall_forall.
  intros w (ws & (m & <- & Hm)%in_map_iff & Hw)%in_concat.
  pose proof (kept_words_tokens spanish_sw m) as Htok.
  rewrite List.Forall_forall in Htok. specialize (Htok w Hw).
  unfold kept_words in Hw.
  apply filter_In in Hw as [Hin [Halpha Hsw]%andb_true_iff].
  split; [done|]. split; [done|]. split; [by apply negb_true_iff|].
  by exists m.
Qed.

Lemma corpus_words_witness :
  split_ws [] (corpus no_stopword chat_good_msgs)
    = [txt "hi"; txt "hey"; txt "how"; txt "are"; txt "you"].
Proof.
  rewrite (proj1 (corpus_words no_stopword chat_good_msgs)).
  vm_compute. reflexivity.
Defined.

(** * Further properties of the emoji counts *)

Lemma tally_keys c c' cnt :
  In c' (map fst (tally c cnt)) <-> c' = c \/ In c' (map fst cnt).
Proof.
  induction cnt as [|[k n] cnt IH]; cbn [tally map fst In].
  - firstorder congruence.
  - destruct (N.eqb_spec c k) as [->|Hne]; cbn [map fst In].
    + firstorder congruence.
    + rewrite IH. firstorder congruence.
Qed.

Lemma tally_NoDup c cnt :
  List.NoDup (map fst cnt) -> List.NoDup (map fst (tally c cnt)).
Proof.
  induction cnt as [|[k n] cnt IH]; cbn [tally map fst]; intros Hnd.
  - repeat constructor. by intros [].
  - apply List.NoDup_cons_iff in Hnd as [Hk Hnd].
    destruct (N.eqb_spec c k) as [->|Hne]; cbn [map fst].
    + by constructor.
    + constructor; [|by apply IH].
      intros [->|Hin]%tally_keys; done.
Qed.

Lemma lookup_tally c c' cnt :
  lookup_count c (tally c' cnt) =
    if (c =? c')%N then Some (S (default 0 (lookup_count c cnt)))
    else lookup_count c cnt.
Proof.
  induction cnt as [|[k n] cnt IH]; cbn [tally lookup_count]; [done|].
  destruct (N.eqb_spec c' k) as [->|Hne]; cbn [lookup_count].
  - by destruct (c =? k)%N.
  - rewrite IH. destruct (N.eqb_spec c k) as [->|]; [|done].
    destruct (N.eqb_spec k c'); [congruence|done].
Qed.

Lemma lookup_count_In c n cnt :
  List.NoDup (map fst cnt) ->
  In (c, n) cnt <-> lookup_count c cnt = Some n.
Proof.
  induction cnt as [|[k m] cnt IH]; cbn [lookup_count map fst In]; intros Hnd.
  - split; [done|discriminate].
  - apply List.NoDup_cons_iff in Hnd as [Hk Hnd].
    destruct (N.eqb_spec c k) as [->|Hne].
    + split; [|intros [= ->]; by left].
      intros [[= ->]|Hin]; [done|].
      exfalso. apply Hk. apply (in_map fst) in Hin. exact Hin.
    + rewrite <- IH by done. split; [|by right].
      intros [[= -> ->]|?]; done.
Qed.

Lemma count_char_snoc c s c' :
  count_char c (s ++ [c']) =
    if (c =? c')%N then S (count_char c s) else count_char c s.
Proof.
  unfold count_char. rewrite List.filter_app, length_app. cbn.
  destruct (c =? c')%N; cbn; lia.
Qed.

Lemma tally_all s :
  List.NoDup (map fst (fold_left (fun cnt c => tally c cnt) s [])) /\
  forall c, lookup_count c (fold_left (fun cnt c => tally c cnt) s []) =
            match count_char c s with
            | O => None
            | n => Some n
            end.
Proof.
  induction s as [|c' s [IHnd IH]] using rev_ind.
  - split; [constructor|done].
  - rewrite fold_left_app. cbn [fold_left]. split; [by apply tally_NoDup|].
    intros c. rewrite lookup_tally, count_char_snoc, IH.
    destruct (c =? c')%N; [|done]. by destruct (count_char c s).
Qed.

(** X18. The emoji counter has one entry for each emoji character that
    occurs in the messages, holding its number of occurrences, and no
    other entry; so it is empty exactly when the messages hold no emoji. *)
Theorem emoji_counts_exact (is_emoji : char -> bool) (msgs : list message) :
  List.NoDup (map fst (emoji_counts is_emoji msgs)) /\
  (forall c n,
      In (c, n) (emoji_counts is_emoji msgs) <->
      n = count_char c (all_emojis is_emoji msgs) /\ 1 <= n) /\
  (emoji_counts is_emoji msgs = [] <-> all_emojis is_emoji msgs = []).
Proof.
  unfold emoji_counts. fold (all_emojis is_emoji msgs).
  destruct (tally_all (all_emojis is_emoji msgs)) as [Hnd Hlook].
  assert (forall c n,
             In (c, n) (fold_left (fun cnt c => tally c cnt)
                                  (all_emojis is_emoji msgs) []) <->
             n = count_char c (all_emojis is_emoji msgs) /\ 1 <= n) as Hin.
  { intros c n. rewrite lookup_count_In, Hlook by done.
    destruct (count_char c _); split; intros H; try done.
    - lia.
    - inversion H. lia.
    - by destruct H as [-> _]. }
  split; [done|]. split; [done|]. split.
  - intros Hnil. destruct (all_emojis is_emoji msgs) as [|c s] eqn:E; [done|].
    assert (In (c, count_char c (c :: s)) []) as [].
    rewrite <- Hnil. apply Hin. split; [done|].
    unfold count_char. cbn. rewrite N.eqb_refl. cbn. lia.
  - by intros ->.
Qed.

(** * Further properties of the top ten *)

Lemma insert_by_count_perm e l : Permutation (insert_by_count e l) (e :: l).
Proof.
  induction l as [|e' l IH]; cbn [insert_by_count]; [done|].
  destruct (snd e' <? snd e); [done|].
  rewrite IH. apply perm_swap.
Qed.

Lemma insert_by_count_sorted e l :
  StronglySorted by_count l -> StronglySorted by_count (insert_by_count e l).
Proof.
  induction l as [|e' l IH]; cbn [insert_by_count]; intros Hs.
  - repeat constructor.
  - pose proof Hs as Hs'. apply StronglySorted_inv in Hs as [Hl Hall].
    destruct (Nat.ltb_spec (snd e') (snd e)).
    + constructor; [done|]. constructor; [unfold by_count; lia|].
      eapply Forall_impl; [exact Hall|]. unfold by_count. intros; cbn in *; lia.
    + constructor; [by apply IH|].
      rewrite insert_by_count_perm. constructor; [done|done].
Qed.

Lemma sort_by_count cnt :
  StronglySorted by_count (fold_left (fun acc e => insert_by_count e acc) cnt [])
  /\ Permutation (fold_left (fun acc e => insert_by_count e acc) cnt []) cnt.
Proof.
  induction cnt as [|e cnt [IHs IHp]] using rev_ind.
  - split; [constructor|done].
  - rewrite fold_left_app. cbn [fold_left]. split.
    + by apply insert_by_count_sorted.
    + rewrite insert_by_count_perm, IHp. apply Permutation_cons_append.
Qed.

(** X19. The top ten of the emoji counter has ten entries, or all of them
    when there are fewer; it is in decreasing order of count; and it is a
    selection of the counter's entries such that no entry left out has a
    larger count than an entry taken. *)
Theorem top_ten_are_largest (is_emoji : char -> bool) (msgs : list message) :
  let cnt := emoji_counts is_emoji msgs in
  let top10 := most_common 10 cnt in
  length top10 = Nat.min 10 (length cnt) /\
  StronglySorted by_count top10 /\
  exists rest,
    Permutation cnt (top10 ++ rest) /\
    forall e r, In e top10 -> In r rest -> snd r <= snd e.
Proof.
  intros cnt top10. unfold top10, most_common.
  destruct (sort_by_count cnt) as [Hs Hp].
  set (sorted := fold_left _ cnt []) in *.
  split; [by rewrite length_take, (Permutation_length Hp)|].
  rewrite <- (take_drop 10 sorted) in Hs, Hp.
  split; [by apply StronglySorted_app_1_l in Hs|].
  exists (drop 10 sorted). split; [done|].
  intros e r He Hr.
  apply (StronglySorted_app_1_elem_of by_count _ _ e r Hs);
    by apply list_elem_of_In.
Qed.
